(** * CoreBridge License Manager: validation, activation and revocation

    A shallow embedding of the license routes of [src/index.js]
    ([POST /api/licenses/generate], [POST /api/licenses/validate],
    [POST /api/licenses/:licenseId/revoke]) over an explicit store holding
    the two Sequelize tables [licenses] and [license_activations].

    Conventions of the embedding:
    - a JS [Date] is its time value, an integer number of milliseconds since
      the epoch ([Z]); the server runs in UTC;
    - a handler is a function from the request, the values it draws from its
      environment (the clock, fresh UUIDs, digests) and the store, to the new
      store and the response; one request observes one clock value [now];
    - the fields of a request body have the types the routes expect: an
      optional string is an [option string], an optional integer an
      [option Z]; JS truthiness ([if (machineId)], [!licenseKey]) is
      [truthy]; a string is a sequence of characters that a Postgres text
      value can hold, and its length is its number of characters;
    - a table is the list of its rows in insertion order; the primary key and
      [unique] constraints of the models make [create] fail on a duplicate,
      and so does a value that does not fit its column ([VARCHAR(255)],
      [INTEGER], an enumeration); a text that is compared with a [UUID]
      column must have the syntax of a UUID; the handlers turn each of these
      failures into a 500 response, and what was written before it stays
      written (no handler opens a transaction);
    - the clock shows a present-day time: the dates that the handlers derive
      from it by adding a validity period are in the range of [Date] and of
      a Postgres timestamp; only the expiring route, which adds a number of
      days chosen by the caller, can leave that range;
    - the [createdAt]/[updatedAt] columns that Sequelize maintains are not
      part of the model. *)

From Stdlib Require Import ZArith String Ascii List Bool Lia.
From stdpp Require Import base gmap strings.
Import ListNotations.

#[local] Open Scope string_scope.
#[local] Open Scope Z_scope.

(** ** Values *)

(** The values that the handlers put into [License.metadata]; [JDate t] is
    the [Date] of time value [t], which JSON holds as its ISO string, and
    [JUndefined] is the value of a field that the request does not have. *)
Inductive jsval : Type :=
| JUndefined
| JString (s : string)
| JNumber (n : Z)
| JDate (t : Z).

(** [ENUM('active', 'expired', 'revoked', 'suspended')] *)
Inductive LicenseStatus : Type := active | expired | revoked | suspended.

(** [ENUM('active', 'inactive', 'revoked')] *)
Inductive ActivationStatus : Type := act_active | act_inactive | act_revoked.

Definition LicenseStatus_eqb (a b : LicenseStatus) : bool :=
  match a, b with
  | active, active | expired, expired
  | revoked, revoked | suspended, suspended => true
  | _, _ => false
  end.

Definition ActivationStatus_eqb (a b : ActivationStatus) : bool :=
  match a, b with
  | act_active, act_active | act_inactive, act_inactive
  | act_revoked, act_revoked => true
  | _, _ => false
  end.

(** The string a status is stored and printed as. *)
Definition LicenseStatus_name (st : LicenseStatus) : string :=
  match st with
  | active => "active"
  | expired => "expired"
  | revoked => "revoked"
  | suspended => "suspended"
  end.

(** JS truthiness of an optional string field of a request body. *)
Definition truthy (o : option string) : bool :=
  match o with
  | Some s => negb (s =? "")%string
  | None => false
  end.

(** ** Time *)

Definition MS_PER_DAY : Z := 86400000.

(** Days from 1970-01-01 to the civil date [y]-[m]-[d] (proleptic
    Gregorian calendar). *)
Definition days_from_civil (y m d : Z) : Z :=
  let y' := if m <=? 2 then y - 1 else y in
  let era := y' / 400 in
  let yoe := y' - era * 400 in
  let mp := (m + 9) mod 12 in
  let doy := (153 * mp + 2) / 5 + d - 1 in
  let doe := yoe * 365 + yoe / 4 - yoe / 100 + doy in
  era * 146097 + doe - 719468.

(** [new Date('YYYY-MM-DD')]: a date-only ISO string is midnight UTC. *)
Definition Date_of_ymd (y m d : Z) : Z := days_from_civil y m d * MS_PER_DAY.

(** [new Date('2099-12-31')] *)
Definition PERPETUAL_EXPIRES_AT : Z := Date_of_ymd 2099 12 31.

(** [moment().add(days, 'days').toDate()] (UTC: a day is 86400000 ms). *)
Definition moment_add_days (now days : Z) : Z := now + days * MS_PER_DAY.

(** [moment(a).diff(moment(b), 'days')]: the difference in days, truncated
    toward zero (moment's [absFloor]). *)
Definition moment_diff_days (a b : Z) : Z := Z.quot (a - b) MS_PER_DAY.

(** The own properties of the object literal [CONFIG.LICENSE_VALIDITY_DAYS]. *)
Definition LICENSE_VALIDITY_DAYS (licenseType : string) : option Z :=
  if (licenseType =? "1-year")%string then Some 365
  else if (licenseType =? "3-year")%string then Some 1095
  else if (licenseType =? "5-year")%string then Some 1825
  else None.

(** What a property access on an object literal with numeric properties
    gives: one of its numbers, or a member that every object inherits from
    [Object.prototype] (a function, or the prototype itself for
    [__proto__]). *)
Inductive Member : Type :=
| OwnNumber (n : Z)
| Inherited.

(** The names that [Object.prototype] defines. *)
Definition OBJECT_PROTOTYPE_KEYS : list string :=
  ["constructor"; "__defineGetter__"; "__defineSetter__"; "hasOwnProperty";
   "__lookupGetter__"; "__lookupSetter__"; "isPrototypeOf";
   "propertyIsEnumerable"; "toString"; "valueOf"; "__proto__";
   "toLocaleString"].

(** [object[key]]: an own property first, then the prototype; [None] is
    [undefined]. *)
Definition get_member (object : string -> option Z) (key : string)
    : option Member :=
  match object key with
  | Some n => Some (OwnNumber n)
  | None =>
      if List.existsb (String.eqb key) OBJECT_PROTOTYPE_KEYS
      then Some Inherited else None
  end.

(** [!days] is false: a number other than 0, a function or an object. *)
Definition Member_truthy (days : Member) : bool :=
  match days with
  | OwnNumber n => negb (n =? 0)
  | Inherited => true
  end.

(** [moment().add(days, 'days').toDate()]: a function or an object without
    unit properties makes an empty duration. *)
Definition moment_add (now : Z) (days : Member) : Z :=
  match days with
  | OwnNumber n => moment_add_days now n
  | Inherited => now
  end.

(** ** Columns

    [DataTypes.STRING] is [VARCHAR(255)] and [DataTypes.INTEGER] a signed
    32-bit integer; a column without [allowNull: false] also takes
    [NULL]. *)
Fixpoint all_spaces (x : string) : bool :=
  match x with
  | EmptyString => true
  | String c x' => Ascii.eqb c " " && all_spaces x'
  end.

(** What a [VARCHAR(255)] column stores of a string: the string itself when
    it has at most 255 characters; its first 255 characters when all the
    others are spaces (Postgres cuts them off, as the SQL standard asks);
    and nothing, with an error, when a character after the 255th is not a
    space. *)
Definition VARCHAR255 (x : string) : option string :=
  if (String.length x <=? 255)%nat then Some x
  else if all_spaces (String.substring 255 (String.length x - 255) x)
  then Some (String.substring 0 255 x)
  else None.

Definition fits_STRING (x : string) : bool :=
  match VARCHAR255 x with
  | Some _ => true
  | None => false
  end.

(** The string as the column holds it. *)
Definition as_STRING (x : string) : string := default x (VARCHAR255 x).

Definition fits_INTEGER (n : Z) : bool :=
  (-2147483648 <=? n) && (n <=? 2147483647).

Definition fits_nullable {A : Type} (fits : A -> bool) (o : option A)
    : bool :=
  match o with
  | Some x => fits x
  | None => true
  end.

(** [ENUM('1-year', '3-year', '5-year', 'perpetual')] *)
Definition fits_licenseType (licenseType : string) : bool :=
  (licenseType =? "1-year")%string || (licenseType =? "3-year")%string
  || (licenseType =? "5-year")%string || (licenseType =? "perpetual")%string.

(** The range of a JS [Date] that Postgres reads back from the text
    Sequelize writes for it: from 0001-01-01 (an earlier year is written
    with a sign or as 0000, which the timestamp parser refuses) to the last
    time value, 8.64e15 ms (beyond it the [Date] is invalid and is written
    as "Invalid date"). *)
Definition DATE_MIN : Z := Date_of_ymd 1 1 1.
Definition DATE_MAX : Z := 8640000000000000.

Definition fits_DATE (t : Z) : bool := (DATE_MIN <=? t) && (t <=? DATE_MAX).

(** ** UUID columns

    [uuid_in], the input function of the Postgres type [uuid], which reads
    the text that a query compares with a UUID column: an optional opening
    brace, sixteen bytes of two hexadecimal digits each, an optional hyphen
    after every second byte but the last, the closing brace when there was
    an opening one, and nothing after it. [None] is the syntax error that
    makes the query fail. The rows hold their keys as Postgres prints them:
    in lower case, with hyphens after the bytes 4, 6, 8 and 10. *)
Definition isxdigit (c : ascii) : bool :=
  let n := nat_of_ascii c in
  ((48 <=? n) && (n <=? 57) || (65 <=? n) && (n <=? 70)
   || (97 <=? n) && (n <=? 102))%nat.

Definition tolower (c : ascii) : ascii :=
  let n := nat_of_ascii c in
  if ((65 <=? n) && (n <=? 90))%nat then ascii_of_nat (n + 32) else c.

(** The bytes [i] to [i + n - 1]: their digits in lower case, and what
    follows them in [src]. *)
Fixpoint uuid_bytes (n i : nat) (src : string) : option (string * string) :=
  match n with
  | O => Some (EmptyString, src)
  | S n' =>
      match src with
      | String c1 (String c2 src') =>
          if isxdigit c1 && isxdigit c2 then
            let src'' :=
              match src' with
              | String c3 src3 =>
                  if Ascii.eqb c3 "-" && Nat.odd i && (i <? 15)%nat
                  then src3 else src'
              | EmptyString => src'
              end in
            match uuid_bytes n' (S i) src'' with
            | Some (digits, rest) =>
                Some (String (tolower c1) (String (tolower c2) digits), rest)
            | None => None
            end
          else None
      | _ => None
      end
  end.

(** [uuid_out] on the 32 digits of a UUID. *)
Definition uuid_out (digits : string) : string :=
  String.substring 0 8 digits ++ "-" ++ String.substring 8 4 digits ++ "-"
  ++ String.substring 12 4 digits ++ "-" ++ String.substring 16 4 digits
  ++ "-" ++ String.substring 20 12 digits.

Definition uuid_in (text : string) : option string :=
  let '(braces, src) :=
    match text with
    | String c src' => if Ascii.eqb c "{" then (true, src') else (false, text)
    | EmptyString => (false, text)
    end in
  match uuid_bytes 16 0 src with
  | Some (digits, rest) =>
      if (rest =? (if braces then "}" else ""))%string
      then Some (uuid_out digits) else None
  | None => None
  end.

(** ** Models *)

Module License.
Record t : Type := mk {
  id : string;
  licenseKey : string;
  pluginId : string;
  customerId : string;
  customerEmail : string;
  customerName : string;
  licenseType : string;
  status : LicenseStatus;
  issuedAt : Z;
  expiresAt : Z;
  activatedAt : option Z;
  activatedBy : option string;
  activationCount : Z;
  maxActivations : Z;
  metadata : gmap string jsval
}.

(** [{ status: st }] *)
Definition set_status (st : LicenseStatus) (l : t) : t :=
  mk (id l) (licenseKey l) (pluginId l) (customerId l) (customerEmail l)
     (customerName l) (licenseType l) st (issuedAt l) (expiresAt l)
     (activatedAt l) (activatedBy l) (activationCount l) (maxActivations l)
     (metadata l).

(** [{ activationCount: n, activatedAt: at, activatedBy: by }] *)
Definition set_activation (n : Z) (at_ : Z) (by_ : string) (l : t) : t :=
  mk (id l) (licenseKey l) (pluginId l) (customerId l) (customerEmail l)
     (customerName l) (licenseType l) (status l) (issuedAt l) (expiresAt l)
     (Some at_) (Some by_) n (maxActivations l) (metadata l).

(** [{ status: st, metadata: md }] *)
Definition set_status_metadata (st : LicenseStatus) (md : gmap string jsval)
    (l : t) : t :=
  mk (id l) (licenseKey l) (pluginId l) (customerId l) (customerEmail l)
     (customerName l) (licenseType l) st (issuedAt l) (expiresAt l)
     (activatedAt l) (activatedBy l) (activationCount l) (maxActivations l)
     md.
End License.

Module LicenseActivation.
Record t : Type := mk {
  id : string;
  licenseId : string;
  machineId : string;
  ipAddress : option string;
  userAgent : option string;
  activatedAt : Z;
  lastSeenAt : Z;
  status : ActivationStatus
}.

(** [{ lastSeenAt: at }] *)
Definition set_lastSeenAt (at_ : Z) (a : t) : t :=
  mk (id a) (licenseId a) (machineId a) (ipAddress a) (userAgent a)
     (activatedAt a) at_ (status a).

(** [{ status: st }] *)
Definition set_status (st : ActivationStatus) (a : t) : t :=
  mk (id a) (licenseId a) (machineId a) (ipAddress a) (userAgent a)
     (activatedAt a) (lastSeenAt a) st.
End LicenseActivation.

(** ** The store *)

Record Store : Type := mkStore {
  licenses : list License.t;
  activations : list LicenseActivation.t
}.

Definition empty_store : Store := mkStore [] [].

(** [License.findOne({ where: { licenseKey, pluginId } })] *)
Definition License_findOne (licenseKey pluginId : string) (s : Store)
    : option License.t :=
  List.find (fun l => (License.licenseKey l =? licenseKey)%string
                      && (License.pluginId l =? pluginId)%string)
            (licenses s).

(** [License.findByPk(licenseId)] *)
Definition License_findByPk (licenseId : string) (s : Store)
    : option License.t :=
  List.find (fun l => (License.id l =? licenseId)%string) (licenses s).

(** [license.update(values)], for values that fit their columns:
    [UPDATE licenses SET ... WHERE id = pk]. *)
Definition License_update (pk : string) (values : License.t -> License.t)
    (s : Store) : Store :=
  mkStore (List.map (fun l => if (License.id l =? pk)%string
                              then values l else l) (licenses s))
          (activations s).

(** The values of [row] fit the columns of the [licenses] table. *)
Definition License_storable (row : License.t) : bool :=
  fits_STRING (License.licenseKey row)
  && fits_STRING (License.pluginId row)
  && fits_STRING (License.customerId row)
  && fits_STRING (License.customerEmail row)
  && fits_STRING (License.customerName row)
  && fits_licenseType (License.licenseType row)
  && fits_nullable fits_STRING (License.activatedBy row)
  && fits_INTEGER (License.activationCount row)
  && fits_INTEGER (License.maxActivations row).

(** The row as the table holds it, which is also what the [INSERT] returns
    to the instance. *)
Definition License_stored (row : License.t) : License.t :=
  License.mk (License.id row)
    (as_STRING (License.licenseKey row))
    (as_STRING (License.pluginId row))
    (as_STRING (License.customerId row))
    (as_STRING (License.customerEmail row))
    (as_STRING (License.customerName row))
    (License.licenseType row) (License.status row) (License.issuedAt row)
    (License.expiresAt row) (License.activatedAt row)
    (option_map as_STRING (License.activatedBy row))
    (License.activationCount row) (License.maxActivations row)
    (License.metadata row).

(** [License.create(row)]: the columns reject a value that does not fit,
    the primary key and the [unique] license key reject a duplicate. *)
Definition License_create (row : License.t) (s : Store) : option Store :=
  if negb (License_storable row) then None
  else
    let license := License_stored row in
    if List.existsb (fun l => (License.id l =? License.id license)%string
                              || (License.licenseKey l
                                  =? License.licenseKey license)%string)
                    (licenses s)
    then None
    else Some (mkStore (licenses s ++ [license]) (activations s)).

(** [s'] is [s] after [License.create] has inserted the license [l]. *)
Definition License_created (l : License.t) (s s' : Store) : Prop :=
  exists row, License_create row s = Some s' /\ l = License_stored row.

(** The rows loaded by [include: [{ model: LicenseActivation, as:
    'activations' }]]: those whose foreign key is the license. *)
Definition activations_of (licenseId : string) (s : Store)
    : list LicenseActivation.t :=
  List.filter (fun a => (LicenseActivation.licenseId a =? licenseId)%string)
              (activations s).

Definition is_active (a : LicenseActivation.t) : bool :=
  ActivationStatus_eqb (LicenseActivation.status a) act_active.

(** [license.activations.filter(a => a.status === 'active').length] *)
Definition activeActivations (licenseId : string) (s : Store) : Z :=
  Z.of_nat (List.length (List.filter is_active (activations_of licenseId s))).

(** [LicenseActivation.findOne({ where: { licenseId, machineId,
    status: 'active' } })] *)
Definition LicenseActivation_findOne (licenseId machineId : string)
    (s : Store) : option LicenseActivation.t :=
  List.find (fun a => (LicenseActivation.licenseId a =? licenseId)%string
                      && (LicenseActivation.machineId a =? machineId)%string
                      && is_active a)
            (activations s).

(** The values of [row] fit the columns of the [license_activations]
    table ([userAgent] is a [TEXT] column, which has no bound). *)
Definition LicenseActivation_storable (row : LicenseActivation.t) : bool :=
  fits_STRING (LicenseActivation.machineId row)
  && fits_nullable fits_STRING (LicenseActivation.ipAddress row).

(** The row as the table holds it. *)
Definition LicenseActivation_stored (row : LicenseActivation.t)
    : LicenseActivation.t :=
  LicenseActivation.mk (LicenseActivation.id row)
    (LicenseActivation.licenseId row)
    (as_STRING (LicenseActivation.machineId row))
    (option_map as_STRING (LicenseActivation.ipAddress row))
    (LicenseActivation.userAgent row) (LicenseActivation.activatedAt row)
    (LicenseActivation.lastSeenAt row) (LicenseActivation.status row).

(** [LicenseActivation.create(row)]: the columns reject a value that does
    not fit, the primary key rejects a duplicate. *)
Definition LicenseActivation_create (row : LicenseActivation.t) (s : Store)
    : option Store :=
  if negb (LicenseActivation_storable row) then None
  else if List.existsb (fun a => (LicenseActivation.id a
                                  =? LicenseActivation.id row)%string)
                       (activations s)
  then None
  else Some (mkStore (licenses s)
               (activations s ++ [LicenseActivation_stored row])).

(** [activation.update(values)] on an instance. *)
Definition LicenseActivation_update (pk : string)
    (values : LicenseActivation.t -> LicenseActivation.t) (s : Store)
    : Store :=
  mkStore (licenses s)
          (List.map (fun a => if (LicenseActivation.id a =? pk)%string
                              then values a else a) (activations s)).

(** [LicenseActivation.update({ status: 'revoked' },
    { where: { licenseId, status: 'active' } })] *)
Definition LicenseActivation_revokeAll (licenseId : string) (s : Store)
    : Store :=
  mkStore (licenses s)
          (List.map (fun a =>
                       if (LicenseActivation.licenseId a =? licenseId)%string
                          && is_active a
                       then LicenseActivation.set_status act_revoked a
                       else a)
                    (activations s)).

(** ** Helper functions *)

Definition toUpperCase_ascii (c : ascii) : ascii :=
  let n := nat_of_ascii c in
  if ((97 <=? n) && (n <=? 122))%nat then ascii_of_nat (n - 32) else c.

Fixpoint toUpperCase (s : string) : string :=
  match s with
  | EmptyString => EmptyString
  | String c s' => String (toUpperCase_ascii c) (toUpperCase s')
  end.

(** [key.match(/.{1,4}/g)]: [cur] is the group being filled and [k] the
    number of characters it can still take. *)
Fixpoint match_groups4 (s : string) (k : nat) (cur : string) : list string :=
  match s with
  | EmptyString => if (cur =? "")%string then [] else [cur]
  | String c s' =>
      match k with
      | O => cur :: match_groups4 s' 3 (String c EmptyString)
      | S k' => match_groups4 s' k' (cur ++ String c EmptyString)
      end
  end.

(** [generateLicenseKey], from the hex digest [hash] of
    [`${pluginId}-${customerEmail}-${timestamp}-${random}`]. *)
Definition generateLicenseKey (hash : string) : string :=
  let key := toUpperCase (String.substring 0 20 hash) in
  "CB-" ++ String.concat "-" (match_groups4 key 4 "").

(** [generateCustomerId], from the hex digest [hash] of the email. *)
Definition generateCustomerId (hash : string) : string :=
  toUpperCase (String.substring 0 16 hash).

(** ** [POST /api/licenses/generate] *)

Module GenerateBody.
Record t : Type := mk {
  pluginId : option string;
  customerName : option string;
  customerEmail : option string;
  licenseType : option string;
  maxActivations : option Z
}.
End GenerateBody.

(** What one call of the generate route draws from its environment: the
    UUID that Sequelize gives the new row, the two SHA-256 hex digests and
    the clock. *)
Record GenerateEnv : Type := mkGenerateEnv {
  gen_uuid : string;
  gen_keyHash : string;
  gen_emailHash : string;
  gen_now : Z
}.

Inductive GenerateResponse : Type :=
| GenerateOk (license : License.t)
| GenerateBadRequest (error : string)
| GenerateFailed.

Definition generate (body : GenerateBody.t) (env : GenerateEnv) (s : Store)
    : Store * GenerateResponse :=
  if negb (truthy (GenerateBody.pluginId body))
     || negb (truthy (GenerateBody.customerName body))
     || negb (truthy (GenerateBody.customerEmail body))
     || negb (truthy (GenerateBody.licenseType body))
  then (s, GenerateBadRequest "Missing required fields")
  else
    let pluginId := default "" (GenerateBody.pluginId body) in
    let customerName := default "" (GenerateBody.customerName body) in
    let customerEmail := default "" (GenerateBody.customerEmail body) in
    let licenseType := default "" (GenerateBody.licenseType body) in
    let maxActivations := default 1 (GenerateBody.maxActivations body) in
    let licenseKey := generateLicenseKey (gen_keyHash env) in
    let expiresAt :=
      if (licenseType =? "perpetual")%string then Some PERPETUAL_EXPIRES_AT
      else match get_member LICENSE_VALIDITY_DAYS licenseType with
           | None => None
           | Some days =>
               if Member_truthy days
               then Some (moment_add (gen_now env) days) else None
           end in
    match expiresAt with
    | None => (s, GenerateBadRequest "Invalid license type")
    | Some expiresAt =>
        let row :=
          License.mk (gen_uuid env) licenseKey pluginId
                     (generateCustomerId (gen_emailHash env))
                     customerEmail customerName licenseType
                     active (gen_now env) expiresAt None None 0
                     maxActivations ∅ in
        match License_create row s with
        | None => (s, GenerateFailed)
        | Some s' => (s', GenerateOk (License_stored row))
        end
    end.

(** The expiry date that [generate] computes for a type of the
    enumeration. *)
Definition expiresAt_for (licenseType : string) (now : Z) : Z :=
  if (licenseType =? "perpetual")%string then PERPETUAL_EXPIRES_AT
  else moment_add_days now (default 0 (LICENSE_VALIDITY_DAYS licenseType)).

(** The row that [generate] passes to [License.create] when the type is one
    of the enumeration. *)
Definition generate_row (body : GenerateBody.t) (env : GenerateEnv)
    : License.t :=
  License.mk (gen_uuid env) (generateLicenseKey (gen_keyHash env))
    (default "" (GenerateBody.pluginId body))
    (generateCustomerId (gen_emailHash env))
    (default "" (GenerateBody.customerEmail body))
    (default "" (GenerateBody.customerName body))
    (default "" (GenerateBody.licenseType body))
    active (gen_now env)
    (expiresAt_for (default "" (GenerateBody.licenseType body)) (gen_now env))
    None None 0
    (default 1 (GenerateBody.maxActivations body)) ∅.

(** ** [POST /api/licenses/validate] *)

Module ValidateBody.
Record t : Type := mk {
  licenseKey : option string;
  pluginId : option string;
  machineId : option string
}.
End ValidateBody.

(** What one call of the validate route draws from its environment:
    [req.ip], the [User-Agent] header, the UUID that Sequelize would give a
    new activation row, and the clock. *)
Record ValidateEnv : Type := mkValidateEnv {
  val_ip : option string;
  val_userAgent : option string;
  val_uuid : string;
  val_now : Z
}.

Inductive Reason : Type :=
| KeyAndPluginRequired
| LicenseNotFound
| LicenseHasExpired
| LicenseIs (st : LicenseStatus)
| MaxActivationsReached
| InternalServerError.

(** The [message] of a [{ valid: false, message }] response. *)
Definition message (r : Reason) : string :=
  match r with
  | KeyAndPluginRequired => "License key and plugin ID are required"
  | LicenseNotFound => "License not found"
  | LicenseHasExpired => "License has expired"
  | LicenseIs st => "License is " ++ LicenseStatus_name st
  | MaxActivationsReached => "Maximum number of activations reached"
  | InternalServerError => "Internal server error"
  end.

Record WarningThresholds : Type := mkWarningThresholds {
  show90DayWarning : bool;
  show60DayWarning : bool;
  show45DayWarning : bool;
  show30DayWarning : bool;
  show15DayWarning : bool;
  showDailyWarning : bool
}.

Module ValidInfo.
Record t : Type := mk {
  licenseId : string;
  status : LicenseStatus;
  licenseType : string;
  expiresAt : Z;
  daysRemaining : Z;
  activationCount : Z;
  maxActivations : Z;
  warningThresholds : WarningThresholds
}.
End ValidInfo.

Inductive Verdict : Type :=
| Valid (info : ValidInfo.t)
| Invalid (reason : Reason).

Definition is_valid (v : Verdict) : bool :=
  match v with Valid _ => true | Invalid _ => false end.

(** The final [res.json({ valid: true, ... })], read off the in-memory
    [license] instance. *)
Definition valid_response (license : License.t) (daysRemaining : Z)
    : Verdict :=
  Valid (ValidInfo.mk
           (License.id license) (License.status license)
           (License.licenseType license) (License.expiresAt license)
           daysRemaining
           (License.activationCount license) (License.maxActivations license)
           (mkWarningThresholds
              (daysRemaining <=? 90) (daysRemaining <=? 60)
              (daysRemaining <=? 45) (daysRemaining <=? 30)
              (daysRemaining <=? 15) (daysRemaining <=? 7))).

Definition validate (body : ValidateBody.t) (env : ValidateEnv) (s : Store)
    : Store * Verdict :=
  if negb (truthy (ValidateBody.licenseKey body))
     || negb (truthy (ValidateBody.pluginId body))
  then (s, Invalid KeyAndPluginRequired)
  else
    let licenseKey := default "" (ValidateBody.licenseKey body) in
    let pluginId := default "" (ValidateBody.pluginId body) in
    let now := val_now env in
    match License_findOne licenseKey pluginId s with
    | None => (s, Invalid LicenseNotFound)
    | Some license =>
        if License.expiresAt license <? now then
          (License_update (License.id license) (License.set_status expired) s,
           Invalid LicenseHasExpired)
        else if negb (LicenseStatus_eqb (License.status license) active) then
          (s, Invalid (LicenseIs (License.status license)))
        else
          let daysRemaining :=
            moment_diff_days (License.expiresAt license) now in
          if truthy (ValidateBody.machineId body) then
            let machineId := default "" (ValidateBody.machineId body) in
            match LicenseActivation_findOne (License.id license) machineId s
            with
            | None =>
                if activeActivations (License.id license) s
                   >=? License.maxActivations license
                then (s, Invalid MaxActivationsReached)
                else
                  let row :=
                    LicenseActivation.mk (val_uuid env) (License.id license)
                      machineId (val_ip env) (val_userAgent env)
                      now now act_active in
                  match LicenseActivation_create row s with
                  | None => (s, Invalid InternalServerError)
                  | Some s1 =>
                      let values :=
                        License.set_activation
                          (License.activationCount license + 1) now in
                      if fits_INTEGER (License.activationCount license + 1)
                      then
                        (License_update (License.id license)
                           (values (as_STRING machineId)) s1,
                         valid_response (values machineId license)
                           daysRemaining)
                      else (s1, Invalid InternalServerError)
                  end
            | Some existingActivation =>
                (LicenseActivation_update
                   (LicenseActivation.id existingActivation)
                   (LicenseActivation.set_lastSeenAt now) s,
                 valid_response license daysRemaining)
            end
          else (s, valid_response license daysRemaining)
    end.

(** ** [POST /api/licenses/:licenseId/revoke] *)

(** 200, 404 "License not found" and 500 "Failed to revoke license". *)
Inductive RevokeResponse : Type :=
| RevokeOk
| RevokeNotFound
| RevokeFailed.

(** [{ ...license.metadata, revocationReason: reason, revokedAt: new Date() }]
    as the JSONB column stores it: a property whose value is [undefined] is
    left out of the JSON text, also when the old metadata had it. *)
Definition revocation_metadata (md : gmap string jsval) (reason : jsval)
    (now : Z) : gmap string jsval :=
  <["revokedAt" := JDate now]>
    (match reason with
     | JUndefined => delete "revocationReason" md
     | _ => <["revocationReason" := reason]> md
     end).

(** [licenseId] is the text of the URL; both queries compare it with a UUID
    column, where it stands for the key [pk] that [uuid_in] reads. *)
Definition revoke (licenseId : string) (reason : jsval) (now : Z) (s : Store)
    : Store * RevokeResponse :=
  match uuid_in licenseId with
  | None => (s, RevokeFailed)
  | Some pk =>
      match License_findByPk pk s with
      | None => (s, RevokeNotFound)
      | Some license =>
          let s1 :=
            License_update (License.id license)
              (License.set_status_metadata revoked
                 (revocation_metadata (License.metadata license) reason now))
              s in
          (LicenseActivation_revokeAll pk s1, RevokeOk)
      end
  end.

(** ** Sequences of requests *)

Inductive Request : Type :=
| ReqGenerate (body : GenerateBody.t) (env : GenerateEnv)
| ReqValidate (body : ValidateBody.t) (env : ValidateEnv)
| ReqRevoke (licenseId : string) (reason : jsval) (now : Z).

Definition handle (s : Store) (r : Request) : Store :=
  match r with
  | ReqGenerate body env => fst (generate body env s)
  | ReqValidate body env => fst (validate body env s)
  | ReqRevoke licenseId reason now => fst (revoke licenseId reason now s)
  end.

Definition serve (rs : list Request) (s : Store) : Store :=
  List.fold_left handle rs s.


(** A sequence of validate calls, with the verdict of each. *)
Fixpoint validate_all (calls : list (ValidateBody.t * ValidateEnv))
    (s : Store) : Store * list Verdict :=
  match calls with
  | [] => (s, [])
  | (body, env) :: calls' =>
      let '(s1, v) := validate body env s in
      let '(s2, vs) := validate_all calls' s1 in
      (s2, v :: vs)
  end.

(** The validate body that presents the key and plugin id of [license]. *)
Definition body_for (license : License.t) (machineId : option string)
    : ValidateBody.t :=
  ValidateBody.mk (Some (License.licenseKey license))
                  (Some (License.pluginId license)) machineId.

(** The body [body] presents the key and plugin id of [license]. *)
Definition presents (license : License.t) (body : ValidateBody.t) : Prop :=
  ValidateBody.licenseKey body = Some (License.licenseKey license)
  /\ ValidateBody.pluginId body = Some (License.pluginId license).

(** ** Integrity constraints of the store

    What the schema enforces on every reachable store: the primary key and
    the unique license key, the foreign key of an activation, and the
    non-empty key and plugin id that [generate] writes. *)
Record wf_store (s : Store) : Prop := mk_wf_store {
  wf_ids : List.NoDup (List.map License.id (licenses s));
  wf_keys : List.NoDup (List.map License.licenseKey (licenses s));
  wf_fk : forall a, In a (activations s) ->
            In (LicenseActivation.licenseId a)
               (List.map License.id (licenses s));
  wf_nonempty : forall l, In l (licenses s) ->
            License.licenseKey l <> "" /\ License.pluginId l <> ""
}.

(** [activationCount] counts the activation rows of the license. *)
Definition counted (s : Store) (l : License.t) : Prop :=
  License.activationCount l
  = Z.of_nat (List.length (activations_of (License.id l) s)).

(** As long as the license is active, all its activation rows are active. *)
Definition active_rows (s : Store) (l : License.t) : Prop :=
  License.status l = active ->
  Forall (fun a => is_active a = true) (activations_of (License.id l) s).

(** The quota is a value of its INTEGER column. *)
Definition quota_stored (l : License.t) : Prop :=
  fits_INTEGER (License.maxActivations l) = true.

Definition count_inv (s : Store) : Prop :=
  wf_store s /\
  forall l, In l (licenses s) ->
    counted s l /\ active_rows s l /\ quota_stored l.

(** ** A running scenario

    One customer, one plugin: the stores below are reached from the empty
    store by the requests shown, and serve as concrete instances. *)
Module Scenario.
Definition gen_body (maxActivations : option Z) (licenseType : string)
    : GenerateBody.t :=
  GenerateBody.mk (Some "plugin-a") (Some "Ada") (Some "ada@example.com")
                  (Some licenseType) maxActivations.

(** The UUIDs that Sequelize draws in the scenario, for the license and
    for the activation rows. *)
Definition license_id : string := "3f2a6c1e-8b47-4d09-9a53-6e1d2c7b4f80".
Definition a1 : string := "7c9e6679-7425-40de-944b-e07fc1f90ae7".
Definition a2 : string := "e4eaaaf2-d142-41e1-b3e4-080027620cdd".
Definition a3 : string := "16fd2706-8baf-433b-82eb-8c7fada847da".
Definition a4 : string := "886313e1-3b8a-4372-9b90-0c9aee199e5d".

Definition gen_env : GenerateEnv :=
  mkGenerateEnv license_id
    "9f86d081884c7d659a2feaa0c55ad015a3bf4f1b2b0b822cd15d6c15b0f00a08"
    "5e884898da28047151d0e56f8dc6292773603d0d6aabbdd62a11ef721d1542d8"
    1000.

Definition key : string := "CB-9F86-D081-884C-7D65-9A2F".

Definition val_body (machineId : option string) : ValidateBody.t :=
  ValidateBody.mk (Some key) (Some "plugin-a") machineId.

Definition val_env (uuid : string) (now : Z) : ValidateEnv :=
  mkValidateEnv (Some "10.0.0.7") None uuid now.

(** The license of the scenario, as issued with [maxActivations] and
    [licenseType]. *)
Definition issued_license (maxActivations : Z) (licenseType : string)
    (expiresAt : Z) : License.t :=
  License.mk license_id key "plugin-a" "5E884898DA280471" "ada@example.com"
             "Ada" licenseType active 1000 expiresAt None None 0
             maxActivations ∅.

Definition one_year : License.t := issued_license 1 "1-year" 31536001000.

(** A one-year license with one slot has just been issued. *)
Definition issued : Store :=
  serve [ReqGenerate (gen_body (Some 1) "1-year") gen_env] empty_store.

(** Machine A has activated it. *)
Definition activated : Store :=
  serve [ReqValidate (val_body (Some "A")) (val_env a1 2000)] issued.

Definition activation_A : LicenseActivation.t :=
  LicenseActivation.mk a1 license_id "A" (Some "10.0.0.7") None 2000 2000
                       act_active.

Definition one_year_activated : License.t :=
  License.set_activation 1 2000 "A" one_year.

(** The license has then been revoked. *)
Definition revoked_store : Store :=
  serve [ReqRevoke license_id (JString "chargeback") 5000] activated.

Definition one_year_revoked : License.t :=
  License.set_status_metadata revoked
    (revocation_metadata ∅ (JString "chargeback") 5000)
    one_year_activated.

(** A clock value after the one-year license has run out. *)
Definition past_due : Z := 31536001000 + 1.

(** A machine id of 256 characters. *)
Definition long_machine : string :=
  String.concat "" (List.repeat "0123456789abcdef" 16).

(** A machine id of 255 characters and a space. *)
Definition spaced_machine : string :=
  String.concat "" (List.repeat "abcde" 51) ++ " ".
End Scenario.

(** * The other routes and jobs *)

(** ** [GET /api/licenses/expiring]

    [days] is the query parameter, a whole number of days, 30 when it is
    absent; each license comes with its activation rows. The query fails
    when [expirationDate] is not a date that Postgres can read. *)
Inductive ExpiringResponse : Type :=
| ExpiringOk (expiringLicenses : list (License.t * list LicenseActivation.t))
| ExpiringFailed.

(** [License.findAll({ where: { status: 'active', expiresAt: { [Op.lte]:
    expirationDate, [Op.gt]: now } }, include: ... })] *)
Definition License_findAll_expiring (expirationDate now : Z) (s : Store)
    : list (License.t * list LicenseActivation.t) :=
  List.map (fun l => (l, activations_of (License.id l) s))
    (List.filter
       (fun l => LicenseStatus_eqb (License.status l) active
                 && (License.expiresAt l <=? expirationDate)
                 && (now <? License.expiresAt l))
       (licenses s)).

Definition expiring (days : option Z) (now : Z) (s : Store)
    : ExpiringResponse :=
  let days := default 30 days in
  let expirationDate := moment_add_days now days in
  if negb (fits_DATE expirationDate) then ExpiringFailed
  else ExpiringOk (License_findAll_expiring expirationDate now s).

(** ** [checkExpiringLicenses] *)

(** [moment(t).startOf('day')] and [moment(t).endOf('day')] (UTC). *)
Definition startOf_day (t : Z) : Z := t / MS_PER_DAY * MS_PER_DAY.
Definition endOf_day (t : Z) : Z := startOf_day t + MS_PER_DAY - 1.

Definition EXPIRY_THRESHOLDS : list Z := [90; 60; 45; 30; 15; 7; 3; 1].

(** One [logger.info(`License expiring in ${days} days`, {...})] line. *)
Record ExpiryNotice : Type := mkExpiryNotice {
  notice_days : Z;
  notice_licenseId : string;
  notice_pluginId : string;
  notice_customerEmail : string;
  notice_expiresAt : Z
}.

(** The licenses selected for the threshold [days]: active, with
    [expiresAt] between the start and the end of the day that lies [days]
    days ahead. *)
Definition expiring_on (days now : Z) (s : Store) : list License.t :=
  let startDate := startOf_day (moment_add_days now days) in
  let endDate := endOf_day (moment_add_days now days) in
  List.filter
    (fun l => LicenseStatus_eqb (License.status l) active
              && (startDate <=? License.expiresAt l)
              && (License.expiresAt l <=? endDate))
    (licenses s).

(** The lines that one run of the job logs, in order. *)
Definition checkExpiringLicenses (now : Z) (s : Store) : list ExpiryNotice :=
  List.flat_map
    (fun days =>
       List.map (fun l => mkExpiryNotice days (License.id l)
                            (License.pluginId l) (License.customerEmail l)
                            (License.expiresAt l))
                (expiring_on days now s))
    EXPIRY_THRESHOLDS.

(** ** [POST /api/plugins/sync] *)

(** [ENUM('discovered', 'enabled', 'disabled')] *)
Inductive PluginStatus : Type :=
  plugin_discovered | plugin_enabled | plugin_disabled.

Module Plugin.
Record t : Type := mk {
  id : string;
  name : string;
  description : option string;
  version : option string;
  author : option string;
  category : option string;
  tags : list string;
  status : PluginStatus;
  healthStatus : option string;
  lastSeen : option Z
}.
End Plugin.

(** One element of the [data] array that the core system returns. *)
Module CorePlugin.
Record t : Type := mk {
  id : option string;
  name : option string;
  description : option string;
  version : option string;
  author : option string;
  category : option string;
  tags : option (list string);
  enabled : bool;
  running : bool;
  healthStatus : option string
}.
End CorePlugin.

(** [a || b] on an optional string. *)
Definition js_or (a : option string) (b : string) : string :=
  if truthy a then default "" a else b.

(** The values of [ENUM('healthy', 'unhealthy', 'unreachable')]. *)
Definition healthStatus_ok (h : string) : bool :=
  (h =? "healthy")%string || (h =? "unhealthy")%string
  || (h =? "unreachable")%string.

(** [pluginData] for a core plugin whose id is [i]. *)
Definition pluginData (c : CorePlugin.t) (i : string) (now : Z) : Plugin.t :=
  Plugin.mk i
    (js_or (CorePlugin.name c) i)
    (Some (js_or (CorePlugin.description c) ""))
    (Some (js_or (CorePlugin.version c) "1.0.0"))
    (Some (js_or (CorePlugin.author c) "Unknown"))
    (Some (js_or (CorePlugin.category c) "other"))
    (default [] (CorePlugin.tags c))
    (if CorePlugin.enabled c then plugin_enabled
     else if CorePlugin.running c then plugin_discovered
     else plugin_disabled)
    (Some (js_or (CorePlugin.healthStatus c) "unreachable"))
    (Some now).

(** [Plugin.findByPk(id)] *)
Definition Plugin_findByPk (i : string) (plugins : list Plugin.t)
    : option Plugin.t :=
  List.find (fun p => (Plugin.id p =? i)%string) plugins.

(** The values of [data] fit the columns of the [plugins] table: the
    strings (each tag is one: the column is an array of [VARCHAR(255)]) and
    the health status, a value of its enumeration; [description] is a
    [TEXT] column. *)
Definition Plugin_storable (data : Plugin.t) : bool :=
  fits_STRING (Plugin.id data)
  && fits_STRING (Plugin.name data)
  && fits_nullable fits_STRING (Plugin.version data)
  && fits_nullable fits_STRING (Plugin.author data)
  && fits_nullable fits_STRING (Plugin.category data)
  && List.forallb fits_STRING (Plugin.tags data)
  && fits_nullable healthStatus_ok (Plugin.healthStatus data).

(** The data as the table holds them. *)
Definition Plugin_stored (data : Plugin.t) : Plugin.t :=
  Plugin.mk (as_STRING (Plugin.id data)) (as_STRING (Plugin.name data))
    (Plugin.description data)
    (option_map as_STRING (Plugin.version data))
    (option_map as_STRING (Plugin.author data))
    (option_map as_STRING (Plugin.category data))
    (List.map as_STRING (Plugin.tags data))
    (Plugin.status data) (Plugin.healthStatus data) (Plugin.lastSeen data).

(** The row [pk] once [data] are written to it: Sequelize does not set the
    primary key of an instance that has one. *)
Definition Plugin_row (pk : string) (data : Plugin.t) : Plugin.t :=
  let stored := Plugin_stored data in
  Plugin.mk pk (Plugin.name stored) (Plugin.description stored)
    (Plugin.version stored) (Plugin.author stored) (Plugin.category stored)
    (Plugin.tags stored) (Plugin.status stored) (Plugin.healthStatus stored)
    (Plugin.lastSeen stored).

(** [existingPlugin.update(pluginData)], for values that fit their columns:
    every column but the primary key is written. *)
Definition Plugin_update (pk : string) (data : Plugin.t)
    (plugins : list Plugin.t) : list Plugin.t :=
  List.map (fun p => if (Plugin.id p =? pk)%string
                     then Plugin_row (Plugin.id p) data
                     else p) plugins.

(** [Plugin.create(pluginData)] *)
Definition Plugin_create (data : Plugin.t) (plugins : list Plugin.t)
    : option (list Plugin.t) :=
  if negb (Plugin_storable data) then None
  else if List.existsb (fun p => (Plugin.id p
                                  =? Plugin.id (Plugin_stored data))%string)
                       plugins
  then None
  else Some (plugins ++ [Plugin_stored data])%list.

(** The loop over [corePlugins], with the two counters; [None] when a
    statement of the body throws (a plugin without id, a value that does
    not fit its column): what was written before stays written. The id of
    a plugin that [findByPk] has found is the id of a row, which fits its
    column. *)
Fixpoint sync_plugins (corePlugins : list CorePlugin.t) (now : Z)
    (plugins : list Plugin.t) (syncedCount updatedCount : Z)
    : list Plugin.t * option (Z * Z) :=
  match corePlugins with
  | [] => (plugins, Some (syncedCount, updatedCount))
  | corePlugin :: rest =>
      match CorePlugin.id corePlugin with
      | None => (plugins, None)
      | Some i =>
          let data := pluginData corePlugin i now in
          match Plugin_findByPk i plugins with
          | Some existingPlugin =>
              if Plugin_storable data then
                sync_plugins rest now
                  (Plugin_update (Plugin.id existingPlugin) data plugins)
                  syncedCount (updatedCount + 1)
              else (plugins, None)
          | None =>
              match Plugin_create data plugins with
              | None => (plugins, None)
              | Some plugins' =>
                  sync_plugins rest now plugins'
                    (syncedCount + 1) updatedCount
              end
          end
      end
  end.

(** What [axios.get] gave: an error, a body without [data.data], or the
    array of core plugins. *)
Inductive CoreResponse : Type :=
| CoreUnreachable
| CoreInvalid
| CorePlugins (corePlugins : list CorePlugin.t).

Inductive SyncResponse : Type :=
| SyncOk (synced updated total : Z)
| SyncInvalidResponse
| SyncFailed.

Definition sync (coreResponse : CoreResponse) (now : Z)
    (plugins : list Plugin.t) : list Plugin.t * SyncResponse :=
  match coreResponse with
  | CoreUnreachable => (plugins, SyncFailed)
  | CoreInvalid => (plugins, SyncInvalidResponse)
  | CorePlugins corePlugins =>
      match sync_plugins corePlugins now plugins 0 0 with
      | (plugins', Some (synced, updated)) =>
          (plugins',
           SyncOk synced updated (Z.of_nat (List.length corePlugins)))
      | (plugins', None) => (plugins', SyncFailed)
      end
  end.

(** A core plugin that the loop can write: it has an id, and the data
    built from it fit their columns (whatever the clock): its health
    status, when it gives one, is a value of the enumeration, and its id,
    name, version, author, category and tags are strings that a
    [VARCHAR(255)] column takes. *)
Definition syncable (corePlugin : CorePlugin.t) : bool :=
  match CorePlugin.id corePlugin with
  | Some i => Plugin_storable (pluginData corePlugin i 0)
  | None => false
  end.



(** The ids that a list of core plugins carries. *)
Definition core_ids (corePlugins : list CorePlugin.t) : list string :=
  List.flat_map (fun c => match CorePlugin.id c with
                          | Some i => [i]
                          | None => []
                          end) corePlugins.

(** A small fleet of core plugins and of stored plugins. *)
Module Fleet.
Definition analytics : CorePlugin.t :=
  CorePlugin.mk (Some "analytics") (Some "Analytics") None (Some "2.1.0")
    None (Some "reporting") (Some ["charts"]) true true (Some "healthy").

Definition mailer : CorePlugin.t :=
  CorePlugin.mk (Some "mailer") None None None None None None false true
    None.

Definition broken : CorePlugin.t :=
  CorePlugin.mk (Some "broken") None None None None None None false false
    (Some "degraded").

Definition stored_mailer : Plugin.t :=
  Plugin.mk "mailer" "Old mailer" None None None None [] plugin_disabled
    None None.

(** An id of 255 characters and a space. *)
Definition spaced_id : string :=
  String.concat "" (List.repeat "plugin-id-" 25) ++ "-core ".

Definition spaced : CorePlugin.t :=
  CorePlugin.mk (Some spaced_id) (Some "Spaced") None None None None None
    true true None.
End Fleet.

(** A second customer next to the one of the running scenario. *)
Module Neighbour.
Definition license_id : string := "9b2d7f04-5c1a-4e6b-b3a8-2f0e4d6c8a1b".

Definition gen_env : GenerateEnv :=
  mkGenerateEnv license_id
    "abababababababababababababababababababababababababababababababab"
    "cdcdcdcdcdcdcdcdcdcdcdcdcdcdcdcdcdcdcdcdcdcdcdcdcdcdcdcdcdcdcdcd"
    1500.

Definition gen_body : GenerateBody.t :=
  GenerateBody.mk (Some "plugin-a") (Some "Bob") (Some "bob@example.com")
                  (Some "perpetual") (Some 3).

Definition perpetual : License.t :=
  License.mk license_id "CB-ABAB-ABAB-ABAB-ABAB-ABAB" "plugin-a"
             "CDCDCDCDCDCDCDCD" "bob@example.com" "Bob" "perpetual" active
             1500 4102358400000 None None 0 3 ∅.

(** Both licenses issued, machine A activated on the first. *)
Definition store : Store :=
  serve [ReqGenerate (Scenario.gen_body (Some 1) "1-year") Scenario.gen_env;
         ReqGenerate gen_body gen_env;
         ReqValidate (Scenario.val_body (Some "A"))
           (Scenario.val_env Scenario.a1 2000)] empty_store.
End Neighbour.

(** ** Further invariants of the license store *)

(** The active activations of a license never exceed its quota. *)
Definition cap_respected (s : Store) : Prop :=
  forall l, In l (licenses s) ->
    activeActivations (License.id l) s <= Z.max 0 (License.maxActivations l).

(** The rows that [LicenseActivation.findOne] searches for a license and a
    machine. *)
Definition active_for (licenseId machineId : string) (s : Store)
    : list LicenseActivation.t :=
  List.filter
    (fun a => (LicenseActivation.licenseId a =? licenseId)%string
              && (LicenseActivation.machineId a =? machineId)%string
              && is_active a)
    (activations s).


(** The primary key of the activation table. *)
Definition activation_ids_unique (s : Store) : Prop :=
  List.NoDup (List.map LicenseActivation.id (activations s)).

(** [l'] is a later state of the license [l]: the identity and the terms
    are the same, a status other than active has not become active, and
    [activationCount] has not decreased. *)
Record later_state (l l' : License.t) : Prop := mk_later_state {
  later_id : License.id l' = License.id l;
  later_licenseKey : License.licenseKey l' = License.licenseKey l;
  later_pluginId : License.pluginId l' = License.pluginId l;
  later_customerId : License.customerId l' = License.customerId l;
  later_customerEmail : License.customerEmail l' = License.customerEmail l;
  later_customerName : License.customerName l' = License.customerName l;
  later_licenseType : License.licenseType l' = License.licenseType l;
  later_issuedAt : License.issuedAt l' = License.issuedAt l;
  later_expiresAt : License.expiresAt l' = License.expiresAt l;
  later_maxActivations :
    License.maxActivations l' = License.maxActivations l;
  later_status : License.status l <> active -> License.status l' <> active;
  later_activationCount :
    License.activationCount l <= License.activationCount l'
}.

(** * Properties *)

Example generateLicenseKey_format :
  generateLicenseKey (gen_keyHash Scenario.gen_env) = Scenario.key.
Proof. reflexivity. Qed.

Example days_from_civil_values :
  days_from_civil 1970 1 1 = 0 /\ days_from_civil 2000 3 1 = 11017
  /\ days_from_civil 2099 12 31 = 47481.
Proof. repeat split. Qed.

Example PERPETUAL_EXPIRES_AT_value : PERPETUAL_EXPIRES_AT = 4102358400000.
Proof. reflexivity. Qed.

Example scenario_issued :
  Scenario.issued = mkStore [Scenario.one_year] [].
Proof. reflexivity. Qed.

Example scenario_activated :
  Scenario.activated
  = mkStore [Scenario.one_year_activated] [Scenario.activation_A].
Proof. reflexivity. Qed.

Example scenario_revoked :
  Scenario.revoked_store
  = mkStore [Scenario.one_year_revoked]
            [LicenseActivation.set_status act_revoked Scenario.activation_A].
Proof. vm_compute. reflexivity. Qed.

(** ** Lists and lookups *)

Section ListFacts.
Context {A B : Type}.

Lemma NoDup_map_inj_in (g : A -> B) (l : list A) (x y : A) :
  List.NoDup (List.map g l) -> In x l -> In y l -> g x = g y -> x = y.
Proof.
  induction l as [|z l IH]; simpl; [tauto|].
  intros Hnd Hx Hy Hg. inversion Hnd as [|? ? Hnot Hnd']; subst.
  destruct Hx as [->|Hx], Hy as [->|Hy]; auto.
  - exfalso. apply Hnot. rewrite Hg. now apply in_map.
  - exfalso. apply Hnot. rewrite <- Hg. now apply in_map.
Qed.

Lemma find_first (f : A -> bool) (l : list A) (x : A) :
  In x l -> f x = true ->
  (forall y, In y l -> f y = true -> y = x) ->
  List.find f l = Some x.
Proof.
  induction l as [|z l IH]; simpl; [tauto|].
  intros Hx Hfx Huniq. destruct (f z) eqn:Hfz.
  - f_equal. apply Huniq; auto.
  - destruct Hx as [->|Hx]; [congruence|]. apply IH; auto.
Qed.

Lemma find_none_iff (f : A -> bool) (l : list A) :
  List.find f l = None <-> forall y, In y l -> f y = false.
Proof.
  split; [apply find_none|].
  induction l as [|z l IH]; simpl; intros H; [reflexivity|].
  rewrite (H z) by auto. apply IH. auto.
Qed.

Lemma map_proj_update (g : A -> A) (pr : A -> B) (l : list A) :
  (forall x, pr (g x) = pr x) ->
  List.map pr (List.map g l) = List.map pr l.
Proof.
  intros Hg. rewrite List.map_map. apply List.map_ext. exact Hg.
Qed.

Lemma filter_map_commute (g : A -> A) (f : A -> bool) (l : list A) :
  (forall x, f (g x) = f x) ->
  List.filter f (List.map g l) = List.map g (List.filter f l).
Proof.
  intros Hg. induction l as [|z l IH]; simpl; [reflexivity|].
  rewrite Hg. destruct (f z); simpl; now rewrite IH.
Qed.

Lemma map_id_on (g : A -> A) (l : list A) :
  (forall x, In x l -> g x = x) -> List.map g l = l.
Proof.
  intros Hg. induction l as [|z l IH]; simpl; [reflexivity|].
  rewrite Hg by (simpl; auto). f_equal. apply IH. intros; apply Hg.
  simpl; auto.
Qed.
End ListFacts.

Lemma truthy_Some (x : string) : truthy (Some x) = true <-> x <> "".
Proof.
  simpl. destruct (String.eqb_spec x ""); simpl; split; congruence.
Qed.

Lemma License_findOne_Some (k p : string) (s : Store) (l : License.t) :
  License_findOne k p s = Some l ->
  In l (licenses s) /\ License.licenseKey l = k /\ License.pluginId l = p.
Proof.
  unfold License_findOne. intros H. apply find_some in H as [Hin Hb].
  apply andb_prop in Hb as [H1 H2].
  apply String.eqb_eq in H1. apply String.eqb_eq in H2. auto.
Qed.

Lemma License_findByPk_Some (i : string) (s : Store) (l : License.t) :
  License_findByPk i s = Some l -> In l (licenses s) /\ License.id l = i.
Proof.
  unfold License_findByPk. intros H. apply find_some in H as [Hin Hb].
  apply String.eqb_eq in Hb. auto.
Qed.

(** The unique license key makes the lookup of a stored license by its own
    key and plugin id return that license. *)
Lemma stored_license_found (s : Store) (l : License.t) :
  wf_store s -> In l (licenses s) ->
  License_findOne (License.licenseKey l) (License.pluginId l) s = Some l.
Proof.
  intros Hwf Hin. unfold License_findOne. apply find_first; auto.
  - now rewrite !String.eqb_refl.
  - intros y Hy Hb. apply andb_prop in Hb as [Hk _].
    apply String.eqb_eq in Hk.
    exact (NoDup_map_inj_in _ _ _ _ (wf_keys s Hwf) Hy Hin Hk).
Qed.

Lemma stored_license_byPk (s : Store) (l : License.t) :
  wf_store s -> In l (licenses s) ->
  License_findByPk (License.id l) s = Some l.
Proof.
  intros Hwf Hin. unfold License_findByPk. apply find_first; auto.
  - now rewrite String.eqb_refl.
  - intros y Hy Hb. apply String.eqb_eq in Hb.
    exact (NoDup_map_inj_in _ _ _ _ (wf_ids s Hwf) Hy Hin Hb).
Qed.

(** ** Effect of the store operations on the rows of a license *)

Lemma License_update_ids (pk : string) (f : License.t -> License.t)
    (s : Store) :
  (forall l, License.id (f l) = License.id l) ->
  List.map License.id (licenses (License_update pk f s))
  = List.map License.id (licenses s).
Proof.
  intros Hf. simpl. apply map_proj_update. intros x.
  destruct (License.id x =? pk)%string; auto.
Qed.

Lemma License_update_In (pk : string) (f : License.t -> License.t)
    (s : Store) (l' : License.t) :
  In l' (licenses (License_update pk f s)) <->
  exists l, In l (licenses s) /\
            l' = if (License.id l =? pk)%string then f l else l.
Proof.
  simpl. rewrite in_map_iff. split; intros [l [H1 H2]]; exists l; auto.
Qed.

Lemma License_update_wf (pk : string) (f : License.t -> License.t)
    (s : Store) :
  (forall l, License.id (f l) = License.id l) ->
  (forall l, License.licenseKey (f l) = License.licenseKey l) ->
  (forall l, License.pluginId (f l) = License.pluginId l) ->
  wf_store s -> wf_store (License_update pk f s).
Proof.
  intros Hi Hk Hp [H1 H2 H3 H4]. split.
  - rewrite License_update_ids by exact Hi. exact H1.
  - simpl. rewrite map_proj_update; [exact H2|]. intros x.
    destruct (License.id x =? pk)%string; auto.
  - rewrite License_update_ids by exact Hi. exact H3.
  - intros l' Hl'. apply License_update_In in Hl' as [l [Hl ->]].
    destruct (License.id l =? pk)%string; rewrite ?Hk, ?Hp; auto.
Qed.

(** An update of the one stored license with primary key [id l] replaces
    [l] and leaves every other row as it is. *)
Lemma License_update_stored (f : License.t -> License.t) (s : Store)
    (l l' : License.t) :
  wf_store s -> In l (licenses s) ->
  In l' (licenses (License_update (License.id l) f s)) <->
  l' = f l \/ (In l' (licenses s) /\ License.id l' <> License.id l).
Proof.
  intros Hwf Hl. rewrite License_update_In. split.
  - intros [l0 [Hl0 ->]]. destruct (String.eqb_spec (License.id l0) (License.id l)) as [E|E].
    + left. f_equal.
      exact (NoDup_map_inj_in _ _ _ _ (wf_ids s Hwf) Hl0 Hl E).
    + right. auto.
  - intros [->|[Hl' Hne]].
    + exists l. now rewrite String.eqb_refl.
    + exists l'. apply String.eqb_neq in Hne. now rewrite Hne.
Qed.

Lemma activations_of_mapped (h : LicenseActivation.t -> LicenseActivation.t)
    (i : string) (ls : list License.t) (acts : list LicenseActivation.t) :
  (forall a, LicenseActivation.licenseId (h a)
             = LicenseActivation.licenseId a) ->
  activations_of i (mkStore ls (List.map h acts))
  = List.map h (activations_of i (mkStore ls acts)).
Proof.
  intros Hh. unfold activations_of. simpl. apply filter_map_commute.
  intros a. now rewrite Hh.
Qed.

Lemma activations_of_In (i : string) (s : Store) (a : LicenseActivation.t) :
  In a (activations_of i s) <->
  In a (activations s) /\ LicenseActivation.licenseId a = i.
Proof.
  unfold activations_of. rewrite filter_In, String.eqb_eq. tauto.
Qed.

Lemma VARCHAR255_short (x : string) :
  (String.length x <= 255)%nat -> VARCHAR255 x = Some x.
Proof.
  intros H. unfold VARCHAR255. apply Nat.leb_le in H. now rewrite H.
Qed.


Lemma as_STRING_short (x : string) :
  (String.length x <= 255)%nat -> as_STRING x = x.
Proof. intros H. unfold as_STRING. now rewrite VARCHAR255_short. Qed.



Lemma as_STRING_nonempty (x : string) : x <> "" -> as_STRING x <> "".
Proof.
  intros Hx. unfold as_STRING, VARCHAR255.
  destruct (Nat.leb_spec (String.length x) 255) as [H|H]; [exact Hx|].
  destruct (all_spaces _); [|exact Hx]. simpl.
  destruct x as [|c x]; [simpl in H; lia | discriminate].
Qed.

Lemma fits_INTEGER_spec (n : Z) :
  fits_INTEGER n = true <-> -2147483648 <= n <= 2147483647.
Proof. unfold fits_INTEGER. rewrite andb_true_iff, !Z.leb_le. tauto. Qed.


Lemma fits_licenseType_spec (lt : string) :
  fits_licenseType lt = true
  <-> In lt ["1-year"; "3-year"; "5-year"; "perpetual"].
Proof.
  unfold fits_licenseType. rewrite !orb_true_iff, !String.eqb_eq. simpl.
  intuition congruence.
Qed.

Lemma LicenseActivation_create_Some (row : LicenseActivation.t)
    (s s' : Store) :
  LicenseActivation_create row s = Some s' ->
  s' = mkStore (licenses s)
         (activations s ++ [LicenseActivation_stored row]).
Proof.
  unfold LicenseActivation_create.
  destruct (negb _); [discriminate|].
  destruct (List.existsb _ _); congruence.
Qed.


(** What [LicenseActivation.create] has checked when it succeeds. *)
Lemma LicenseActivation_create_checked (row : LicenseActivation.t)
    (s s' : Store) :
  LicenseActivation_create row s = Some s' ->
  LicenseActivation_storable row = true
  /\ forall a, In a (activations s) ->
               LicenseActivation.id a <> LicenseActivation.id row.
Proof.
  unfold LicenseActivation_create.
  destruct (LicenseActivation_storable row); [|discriminate]. simpl.
  destruct (List.existsb _ _) eqn:E; [discriminate|]. intros _.
  split; [reflexivity|]. intros a Ha Heq.
  rewrite <- not_true_iff_false, existsb_exists in E. apply E.
  exists a. split; [exact Ha|]. rewrite Heq. apply String.eqb_refl.
Qed.



Lemma activations_of_added (i : string) (ls : list License.t)
    (acts : list LicenseActivation.t) (row : LicenseActivation.t) :
  activations_of i (mkStore ls (acts ++ [row]))
  = (activations_of i (mkStore ls acts)
     ++ if (LicenseActivation.licenseId row =? i)%string then [row] else []
    )%list.
Proof.
  unfold activations_of. simpl. rewrite List.filter_app. simpl.
  destruct (LicenseActivation.licenseId row =? i)%string; reflexivity.
Qed.

Lemma License_create_inv (row : License.t) (s s' : Store) :
  License_create row s = Some s' ->
  License_storable row = true
  /\ s' = mkStore (licenses s ++ [License_stored row]) (activations s)
  /\ forall l, In l (licenses s) ->
       License.id l <> License.id (License_stored row)
       /\ License.licenseKey l <> License.licenseKey (License_stored row).
Proof.
  unfold License_create.
  destruct (License_storable row); [|discriminate]. cbn [negb].
  destruct (List.existsb _ _) eqn:E; [discriminate|].
  intros [= <-]. split; [reflexivity|]. split; [reflexivity|]. intros l Hl.
  rewrite <- not_true_iff_false, existsb_exists in E.
  split; intros Heq; apply E; exists l; split; auto;
    rewrite Heq, String.eqb_refl; auto using orb_true_r.
Qed.

Lemma License_create_Some (l : License.t) (s s' : Store) :
  License_created l s s' ->
  s' = mkStore (licenses s ++ [l]) (activations s)
  /\ forall l0, In l0 (licenses s) ->
       License.id l0 <> License.id l
       /\ License.licenseKey l0 <> License.licenseKey l.
Proof.
  intros (row & Hc & ->).
  apply License_create_inv in Hc as (_ & -> & Hfresh). auto.
Qed.

(** The quota of a license that [License.create] has stored is a value of
    its column. *)
Lemma License_created_quota (l : License.t) (s s' : Store) :
  License_created l s s' -> fits_INTEGER (License.maxActivations l) = true.
Proof.
  intros (row & Hc & ->).
  apply License_create_inv in Hc as (Hfits & _).
  unfold License_storable in Hfits. rewrite !andb_true_iff in Hfits.
  simpl. tauto.
Qed.

Lemma NoDup_snoc {A : Type} (l : list A) (x : A) :
  List.NoDup l -> ~ In x l -> List.NoDup (l ++ [x])%list.
Proof.
  intros Hnd Hx. induction Hnd as [|y l Hy Hnd IH]; simpl.
  - constructor; [simpl; tauto | constructor].
  - constructor.
    + rewrite in_app_iff. simpl. intros [H|[H|[]]]; [tauto|].
      subst. apply Hx. simpl; auto.
    + apply IH. intros H. apply Hx. simpl; auto.
Qed.

Lemma License_create_wf (row : License.t) (s s' : Store) :
  License.licenseKey row <> "" -> License.pluginId row <> "" ->
  wf_store s -> License_created row s s' -> wf_store s'.
Proof.
  intros Hk Hp [H1 H2 H3 H4] Hc.
  apply License_create_Some in Hc as [-> Hfresh]. split; simpl.
  - rewrite List.map_app. apply NoDup_snoc; [exact H1|].
    rewrite in_map_iff. intros [l [E Hl]]. now apply Hfresh in Hl.
  - rewrite List.map_app. apply NoDup_snoc; [exact H2|].
    rewrite in_map_iff. intros [l [E Hl]]. now apply Hfresh in Hl.
  - intros a Ha. rewrite List.map_app, in_app_iff. left. auto.
  - intros l Hl. apply in_app_iff in Hl as [Hl|[<-|[]]]; auto.
Qed.

(** No activation row points at a primary key that [License.create] has
    just accepted. *)
Lemma activations_of_new_license (row : License.t) (s s' : Store) :
  wf_store s -> License_created row s s' ->
  activations_of (License.id row) s' = [].
Proof.
  intros Hwf Hc. apply License_create_Some in Hc as [-> Hfresh].
  destruct (activations_of (License.id row)
              (mkStore (licenses s ++ [row]) (activations s)))
    as [|a rest] eqn:E; [reflexivity|].
  assert (Ha : In a (activations_of (License.id row)
                        (mkStore (licenses s ++ [row]) (activations s))))
    by (rewrite E; simpl; auto).
  apply activations_of_In in Ha as [Ha Hid]. simpl in Ha.
  apply (wf_fk s Hwf) in Ha. apply in_map_iff in Ha as [l [El Hl]].
  apply Hfresh in Hl as [Hl _]. exfalso. apply Hl. congruence.
Qed.

(** ** The branches of [validate]

    One equation per path through the handler, for a request whose lookup
    returns [l]. *)

Ltac open_validate Hk Hp Hfind :=
  unfold validate;
  cbn [ValidateBody.licenseKey ValidateBody.pluginId ValidateBody.machineId];
  rewrite (proj2 (truthy_Some _) Hk), (proj2 (truthy_Some _) Hp);
  cbn [negb orb from_option]; unfold id; rewrite Hfind.

Section ValidateBranches.
Variables (k p : string) (env : ValidateEnv) (s : Store) (l : License.t).
Hypothesis Hk : k <> "".
Hypothesis Hp : p <> "".
Hypothesis Hfind : License_findOne k p s = Some l.

Lemma validate_expired (m : option string) :
  License.expiresAt l < val_now env ->
  validate (ValidateBody.mk (Some k) (Some p) m) env s
  = (License_update (License.id l) (License.set_status expired) s,
     Invalid LicenseHasExpired).
Proof.
  intros Hexp. open_validate Hk Hp Hfind.
  apply Z.ltb_lt in Hexp. now rewrite Hexp.
Qed.

Lemma validate_not_active (m : option string) :
  val_now env <= License.expiresAt l ->
  License.status l <> active ->
  validate (ValidateBody.mk (Some k) (Some p) m) env s
  = (s, Invalid (LicenseIs (License.status l))).
Proof.
  intros Hexp Hst. open_validate Hk Hp Hfind.
  apply Z.ltb_ge in Hexp. rewrite Hexp.
  destruct (License.status l); try reflexivity. congruence.
Qed.

Hypothesis Hlive : val_now env <= License.expiresAt l.
Hypothesis Hactive : License.status l = active.

Lemma validate_status_only (m : option string) :
  truthy m = false ->
  validate (ValidateBody.mk (Some k) (Some p) m) env s
  = (s, valid_response l
          (moment_diff_days (License.expiresAt l) (val_now env))).
Proof.
  intros Hm. open_validate Hk Hp Hfind.
  apply Z.ltb_ge in Hlive. rewrite Hlive, Hactive, Hm. reflexivity.
Qed.

Variable machineId : string.
Hypothesis Hm : machineId <> "".

Lemma validate_seen (a : LicenseActivation.t) :
  LicenseActivation_findOne (License.id l) machineId s = Some a ->
  validate (ValidateBody.mk (Some k) (Some p) (Some machineId)) env s
  = (LicenseActivation_update (LicenseActivation.id a)
       (LicenseActivation.set_lastSeenAt (val_now env)) s,
     valid_response l
       (moment_diff_days (License.expiresAt l) (val_now env))).
Proof.
  intros Ha. open_validate Hk Hp Hfind.
  apply Z.ltb_ge in Hlive.
  rewrite Hlive, Hactive, (proj2 (truthy_Some _) Hm).
  cbn [LicenseStatus_eqb negb from_option]; unfold id. now rewrite Ha.
Qed.

Hypothesis Hnew : LicenseActivation_findOne (License.id l) machineId s = None.

Lemma validate_cap_reached :
  License.maxActivations l <= activeActivations (License.id l) s ->
  validate (ValidateBody.mk (Some k) (Some p) (Some machineId)) env s
  = (s, Invalid MaxActivationsReached).
Proof.
  intros Hcap. open_validate Hk Hp Hfind.
  apply Z.ltb_ge in Hlive.
  rewrite Hlive, Hactive, (proj2 (truthy_Some _) Hm).
  cbn [LicenseStatus_eqb negb from_option]; unfold id. rewrite Hnew.
  apply Z.geb_le in Hcap. now rewrite Hcap.
Qed.

Hypothesis Hroom :
  activeActivations (License.id l) s < License.maxActivations l.

Lemma validate_activates (s1 : Store) :
  LicenseActivation_create
    (LicenseActivation.mk (val_uuid env) (License.id l) machineId
       (val_ip env) (val_userAgent env) (val_now env) (val_now env)
       act_active) s = Some s1 ->
  fits_INTEGER (License.activationCount l + 1) = true ->
  validate (ValidateBody.mk (Some k) (Some p) (Some machineId)) env s
  = (License_update (License.id l)
       (License.set_activation (License.activationCount l + 1)
          (val_now env) (as_STRING machineId)) s1,
     valid_response
       (License.set_activation (License.activationCount l + 1)
          (val_now env) machineId l)
       (moment_diff_days (License.expiresAt l) (val_now env))).
Proof.
  intros Hc Hfits. open_validate Hk Hp Hfind.
  apply Z.ltb_ge in Hlive.
  rewrite Hlive, Hactive, (proj2 (truthy_Some _) Hm).
  cbn [LicenseStatus_eqb negb from_option]; unfold id. rewrite Hnew.
  destruct (Z.geb_spec (activeActivations (License.id l) s)
              (License.maxActivations l)) as [Hge|_]; [lia|].
  now rewrite Hc, Hfits.
Qed.

(** The activation row is stored, then the update of the license is
    rejected: the row stays. *)
Lemma validate_update_rejected (s1 : Store) :
  LicenseActivation_create
    (LicenseActivation.mk (val_uuid env) (License.id l) machineId
       (val_ip env) (val_userAgent env) (val_now env) (val_now env)
       act_active) s = Some s1 ->
  fits_INTEGER (License.activationCount l + 1) = false ->
  validate (ValidateBody.mk (Some k) (Some p) (Some machineId)) env s
  = (s1, Invalid InternalServerError).
Proof.
  intros Hc Hfits. open_validate Hk Hp Hfind.
  apply Z.ltb_ge in Hlive.
  rewrite Hlive, Hactive, (proj2 (truthy_Some _) Hm).
  cbn [LicenseStatus_eqb negb from_option]; unfold id. rewrite Hnew.
  destruct (Z.geb_spec (activeActivations (License.id l) s)
              (License.maxActivations l)) as [Hge|_]; [lia|].
  now rewrite Hc, Hfits.
Qed.

Lemma validate_insert_rejected :
  LicenseActivation_create
    (LicenseActivation.mk (val_uuid env) (License.id l) machineId
       (val_ip env) (val_userAgent env) (val_now env) (val_now env)
       act_active) s = None ->
  validate (ValidateBody.mk (Some k) (Some p) (Some machineId)) env s
  = (s, Invalid InternalServerError).
Proof.
  intros Hc. open_validate Hk Hp Hfind.
  apply Z.ltb_ge in Hlive.
  rewrite Hlive, Hactive, (proj2 (truthy_Some _) Hm).
  cbn [LicenseStatus_eqb negb from_option]; unfold id. rewrite Hnew.
  destruct (Z.geb_spec (activeActivations (License.id l) s)
              (License.maxActivations l)) as [Hge|_]; [lia|].
  now rewrite Hc.
Qed.
End ValidateBranches.

(** Every store that [validate] can leave behind, with the conditions under
    which it does: the store it was given; that store with the status
    expired on one license; with [lastSeenAt] set on one activation row;
    with a new activation row and the license updated; or with the new row
    only, when the update of the license is rejected. *)
Lemma validate_effects (body : ValidateBody.t) (env : ValidateEnv)
    (s : Store) :
  fst (validate body env s) = s
  \/ (exists l, In l (licenses s)
        /\ fst (validate body env s)
           = License_update (License.id l) (License.set_status expired) s)
  \/ (exists a, In a (activations s)
        /\ fst (validate body env s)
           = LicenseActivation_update (LicenseActivation.id a)
               (LicenseActivation.set_lastSeenAt (val_now env)) s)
  \/ (exists l m,
        In l (licenses s) /\ License.status l = active
        /\ LicenseActivation_findOne (License.id l) m s = None
        /\ activeActivations (License.id l) s < License.maxActivations l
        /\ (forall a, In a (activations s) ->
              LicenseActivation.id a <> val_uuid env)
        /\ ValidateBody.machineId body = Some m
        /\ (fits_INTEGER (License.activationCount l + 1) = true
            /\ fst (validate body env s)
               = License_update (License.id l)
                   (License.set_activation (License.activationCount l + 1)
                      (val_now env) (as_STRING m))
                   (mkStore (licenses s)
                      (activations s
                       ++ [LicenseActivation.mk (val_uuid env) (License.id l)
                             (as_STRING m) (option_map as_STRING (val_ip env))
                             (val_userAgent env) (val_now env)
                             (val_now env) act_active]))
            \/ fits_INTEGER (License.activationCount l + 1) = false
               /\ fst (validate body env s)
                  = mkStore (licenses s)
                      (activations s
                       ++ [LicenseActivation.mk (val_uuid env) (License.id l)
                             (as_STRING m) (option_map as_STRING (val_ip env))
                             (val_userAgent env) (val_now env)
                             (val_now env) act_active]))).
Proof.
  unfold validate.
  destruct (negb (truthy (ValidateBody.licenseKey body))
            || negb (truthy (ValidateBody.pluginId body))); [now left|].
  destruct (License_findOne _ _ s) as [l|] eqn:Hfind; [|now left].
  apply License_findOne_Some in Hfind as [Hin _].
  destruct (License.expiresAt l <? val_now env).
  { right; left. exists l. auto. }
  destruct (LicenseStatus_eqb (License.status l) active) eqn:Hst;
    [|now left].
  assert (License.status l = active) by (destruct (License.status l); easy).
  cbn [negb].
  destruct (truthy (ValidateBody.machineId body)) eqn:Hm; [|now left].
  destruct (ValidateBody.machineId body) as [m|]; [|discriminate].
  cbn [from_option]; unfold id.
  destruct (LicenseActivation_findOne _ _ s) as [a|] eqn:Ha.
  { right; right; left. exists a. split; [|reflexivity].
    unfold LicenseActivation_findOne in Ha.
    now apply find_some in Ha as [Ha _]. }
  destruct (Z.geb_spec (activeActivations (License.id l) s)
              (License.maxActivations l)) as [|Hroom]; [now left|].
  destruct (LicenseActivation_create _ s) as [s1|] eqn:Hc; [|now left].
  pose proof (LicenseActivation_create_checked _ _ _ Hc) as [_ Hfresh].
  apply LicenseActivation_create_Some in Hc. subst s1.
  right; right; right. exists l, m.
  split; [exact Hin|]. split; [assumption|]. split; [exact Ha|].
  split; [exact Hroom|]. split; [exact Hfresh|]. split; [reflexivity|].
  destruct (fits_INTEGER (License.activationCount l + 1));
    [left | right]; split; reflexivity.
Qed.

(** ** The integrity constraints hold on every reachable store *)

Lemma mapped_activations_wf
    (h : LicenseActivation.t -> LicenseActivation.t) (s : Store) :
  (forall a, LicenseActivation.licenseId (h a)
             = LicenseActivation.licenseId a) ->
  wf_store s -> wf_store (mkStore (licenses s) (List.map h (activations s))).
Proof.
  intros Hh [H1 H2 H3 H4]. split; simpl; auto.
  intros a' Ha'. apply in_map_iff in Ha' as [a [<- Ha]]. rewrite Hh. auto.
Qed.

Lemma added_activation_wf (row : LicenseActivation.t) (s : Store) :
  In (LicenseActivation.licenseId row) (List.map License.id (licenses s)) ->
  wf_store s -> wf_store (mkStore (licenses s) (activations s ++ [row])).
Proof.
  intros Hrow [H1 H2 H3 H4]. split; simpl; auto.
  intros a Ha. apply in_app_iff in Ha as [Ha|[<-|[]]]; auto.
Qed.

Lemma revokeAll_licenseId (i : string) (a : LicenseActivation.t) :
  LicenseActivation.licenseId
    (if (LicenseActivation.licenseId a =? i)%string && is_active a
     then LicenseActivation.set_status act_revoked a else a)
  = LicenseActivation.licenseId a.
Proof. destruct (_ && _); reflexivity. Qed.

Lemma update_licenseId (pk : string) (t : Z) (a : LicenseActivation.t) :
  LicenseActivation.licenseId
    (if (LicenseActivation.id a =? pk)%string
     then LicenseActivation.set_lastSeenAt t a else a)
  = LicenseActivation.licenseId a.
Proof. destruct (_ =? _)%string; reflexivity. Qed.

Lemma validate_wf (body : ValidateBody.t) (env : ValidateEnv) (s : Store) :
  wf_store s -> wf_store (fst (validate body env s)).
Proof.
  intros Hwf.
  destruct (validate_effects body env s)
    as [E|[[l [Hl E]]|[[a [_ E]]
         |[l [m (Hl & _ & _ & _ & _ & _ & [[_ E]|[_ E]])]]]]]; rewrite E.
  - exact Hwf.
  - now apply License_update_wf.
  - apply mapped_activations_wf; [apply update_licenseId | exact Hwf].
  - apply License_update_wf; try reflexivity.
    apply added_activation_wf; [|exact Hwf]. simpl. now apply in_map.
  - apply added_activation_wf; [|exact Hwf]. simpl. now apply in_map.
Qed.

Lemma revoke_wf (i : string) (reason : jsval) (now : Z) (s : Store) :
  wf_store s -> wf_store (fst (revoke i reason now s)).
Proof.
  intros Hwf. unfold revoke.
  destruct (uuid_in i) as [pk|]; [|exact Hwf].
  destruct (License_findByPk pk s) as [l|]; [|exact Hwf]. simpl.
  apply (mapped_activations_wf _ (License_update _ _ s)).
  - apply revokeAll_licenseId.
  - now apply License_update_wf.
Qed.

Lemma generateLicenseKey_nonempty (hash : string) :
  generateLicenseKey hash <> "".
Proof. unfold generateLicenseKey. simpl. discriminate. Qed.

Lemma toUpperCase_length (s : string) :
  String.length (toUpperCase s) = String.length s.
Proof. induction s as [|c s IH]; simpl; congruence. Qed.

Lemma substring_0_le (n : nat) (x : string) :
  (String.length (String.substring 0 n x) <= n)%nat.
Proof.
  revert x. induction n as [|n IH]; intros [|c x]; simpl; try lia.
  specialize (IH x). lia.
Qed.

(** A license key has at most 27 characters and a customer id at most 16,
    whatever the digests: their columns store them as they are. *)
Lemma generateLicenseKey_short (hash : string) :
  (String.length (generateLicenseKey hash) <= 255)%nat.
Proof.
  unfold generateLicenseKey.
  pose proof (substring_0_le 20 hash) as Hlen.
  rewrite <- toUpperCase_length in Hlen.
  set (key := toUpperCase (String.substring 0 20 hash)) in *.
  clearbody key.
  do 21 (destruct key as [|? key]; [simpl; lia|]). simpl in Hlen. lia.
Qed.


Lemma License_storable_licenseType (row : License.t) :
  License_storable row = true ->
  fits_licenseType (License.licenseType row) = true.
Proof.
  unfold License_storable. rewrite !andb_true_iff. tauto.
Qed.

(** The types of the enumeration are "perpetual" and the own properties of
    [CONFIG.LICENSE_VALIDITY_DAYS]. *)
Lemma fits_licenseType_days (lt : string) :
  fits_licenseType lt = true ->
  (lt =? "perpetual")%string = false ->
  exists days, LICENSE_VALIDITY_DAYS lt = Some days /\ 0 < days
               /\ get_member LICENSE_VALIDITY_DAYS lt
                  = Some (OwnNumber days).
Proof.
  intros Hin Hp. apply fits_licenseType_spec in Hin.
  destruct Hin as [<-|[<-|[<-|[<-|[]]]]]; try discriminate;
    eexists; (split; [reflexivity | split; reflexivity]).
Qed.

Lemma LICENSE_VALIDITY_DAYS_fits (lt : string) (days : Z) :
  LICENSE_VALIDITY_DAYS lt = Some days -> fits_licenseType lt = true.
Proof.
  unfold LICENSE_VALIDITY_DAYS, fits_licenseType.
  destruct (lt =? "1-year")%string; [reflexivity|].
  destruct (lt =? "3-year")%string; [reflexivity|].
  destruct (lt =? "5-year")%string; [reflexivity|]. discriminate.
Qed.

(** Past its check of the required fields, [generate] answers as
    [License.create] does on the row it builds, unless the type is unknown
    to JS. *)
Lemma generate_present (body : GenerateBody.t) (env : GenerateEnv)
    (s : Store) :
  truthy (GenerateBody.pluginId body) = true ->
  truthy (GenerateBody.customerName body) = true ->
  truthy (GenerateBody.customerEmail body) = true ->
  truthy (GenerateBody.licenseType body) = true ->
  let lt := default "" (GenerateBody.licenseType body) in
  generate body env s
  = if fits_licenseType lt then
      match License_create (generate_row body env) s with
      | Some s' => (s', GenerateOk (License_stored (generate_row body env)))
      | None => (s, GenerateFailed)
      end
    else if List.existsb (String.eqb lt) OBJECT_PROTOTYPE_KEYS
    then (s, GenerateFailed)
    else (s, GenerateBadRequest "Invalid license type").
Proof.
  intros H1 H2 H3 H4 lt. unfold generate.
  rewrite H1, H2, H3, H4. cbn [negb orb]. fold lt.
  destruct (fits_licenseType lt) eqn:Hfits.
  - unfold generate_row, expiresAt_for. fold lt.
    destruct (lt =? "perpetual")%string eqn:Eperp; [reflexivity|].
    destruct (fits_licenseType_days lt Hfits Eperp) as (d & Hd & Hpos & ->).
    rewrite Hd. cbn [Member_truthy moment_add from_option]. unfold id.
    replace (d =? 0) with false by (symmetry; apply Z.eqb_neq; lia).
    reflexivity.
  - assert (Eperp : (lt =? "perpetual")%string = false).
    { unfold fits_licenseType in Hfits. rewrite !orb_false_iff in Hfits.
      tauto. }
    rewrite Eperp. unfold get_member.
    destruct (LICENSE_VALIDITY_DAYS lt) as [d|] eqn:Hd.
    { apply LICENSE_VALIDITY_DAYS_fits in Hd. congruence. }
    destruct (List.existsb (String.eqb lt) OBJECT_PROTOTYPE_KEYS);
      [|reflexivity].
    cbn [Member_truthy moment_add]. unfold License_create, License_storable.
    cbn [License.licenseType]. rewrite Hfits, !andb_false_r. reflexivity.
Qed.

Lemma generate_missing (body : GenerateBody.t) (env : GenerateEnv)
    (s : Store) :
  truthy (GenerateBody.pluginId body) = false
  \/ truthy (GenerateBody.customerName body) = false
  \/ truthy (GenerateBody.customerEmail body) = false
  \/ truthy (GenerateBody.licenseType body) = false ->
  generate body env s = (s, GenerateBadRequest "Missing required fields").
Proof.
  unfold generate.
  intros [H|[H|[H|H]]]; rewrite H; cbn [negb orb];
    rewrite ?orb_true_r; reflexivity.
Qed.

Lemma generate_Ok_inv (body : GenerateBody.t) (env : GenerateEnv)
    (s s' : Store) (l : License.t) :
  generate body env s = (s', GenerateOk l) ->
  truthy (GenerateBody.pluginId body) = true
  /\ truthy (GenerateBody.customerName body) = true
  /\ truthy (GenerateBody.customerEmail body) = true
  /\ truthy (GenerateBody.licenseType body) = true
  /\ fits_licenseType (default "" (GenerateBody.licenseType body)) = true
  /\ l = License_stored (generate_row body env)
  /\ License_create (generate_row body env) s = Some s'.
Proof.
  intros Hgen.
  destruct (truthy (GenerateBody.pluginId body)) eqn:H1;
    [|rewrite generate_missing in Hgen by auto; discriminate].
  destruct (truthy (GenerateBody.customerName body)) eqn:H2;
    [|rewrite generate_missing in Hgen by auto; discriminate].
  destruct (truthy (GenerateBody.customerEmail body)) eqn:H3;
    [|rewrite generate_missing in Hgen by auto; discriminate].
  destruct (truthy (GenerateBody.licenseType body)) eqn:H4;
    [|rewrite generate_missing in Hgen by auto 6; discriminate].
  rewrite (generate_present body env s H1 H2 H3 H4) in Hgen.
  destruct (fits_licenseType _);
    [|destruct (List.existsb _ _); discriminate].
  destruct (License_create _ s) as [s1|] eqn:Hc; [|discriminate].
  injection Hgen as <- <-. auto 10.
Qed.

(** [generate] either stores the license it answers with, or leaves the
    store as it is. *)
Lemma generate_cases (body : GenerateBody.t) (env : GenerateEnv)
    (s : Store) :
  (exists s' l, generate body env s = (s', GenerateOk l)
                /\ License_created l s s')
  \/ (fst (generate body env s) = s
      /\ forall l, snd (generate body env s) <> GenerateOk l).
Proof.
  destruct (generate body env s) as [s' r] eqn:E.
  destruct r as [l|e|].
  - left. exists s', l. split; [reflexivity|].
    apply generate_Ok_inv in E as (_ & _ & _ & _ & _ & -> & Hc).
    now exists (generate_row body env).
  - right. split; [|easy]. revert E.
    destruct (truthy (GenerateBody.pluginId body)) eqn:H1;
      [|rewrite generate_missing by auto; intros E; now inversion E].
    destruct (truthy (GenerateBody.customerName body)) eqn:H2;
      [|rewrite generate_missing by auto; intros E; now inversion E].
    destruct (truthy (GenerateBody.customerEmail body)) eqn:H3;
      [|rewrite generate_missing by auto; intros E; now inversion E].
    destruct (truthy (GenerateBody.licenseType body)) eqn:H4;
      [|rewrite generate_missing by auto 6; intros E; now inversion E].
    rewrite (generate_present body env s H1 H2 H3 H4).
    destruct (fits_licenseType _);
      [destruct (License_create _ s) | destruct (List.existsb _ _)];
      intros E; now inversion E.
  - right. split; [|easy]. revert E.
    destruct (truthy (GenerateBody.pluginId body)) eqn:H1;
      [|rewrite generate_missing by auto; intros E; now inversion E].
    destruct (truthy (GenerateBody.customerName body)) eqn:H2;
      [|rewrite generate_missing by auto; intros E; now inversion E].
    destruct (truthy (GenerateBody.customerEmail body)) eqn:H3;
      [|rewrite generate_missing by auto; intros E; now inversion E].
    destruct (truthy (GenerateBody.licenseType body)) eqn:H4;
      [|rewrite generate_missing by auto 6; intros E; now inversion E].
    rewrite (generate_present body env s H1 H2 H3 H4).
    destruct (fits_licenseType _);
      [destruct (License_create _ s) | destruct (List.existsb _ _)];
      intros E; now inversion E.
Qed.



(** What a successful [generate] has done. *)
Lemma generate_ok (body : GenerateBody.t) (env : GenerateEnv)
    (s s' : Store) (l : License.t) :
  generate body env s = (s', GenerateOk l) ->
  License_created l s s'
  /\ License.id l = gen_uuid env
  /\ License.licenseKey l = generateLicenseKey (gen_keyHash env)
  /\ (exists p, GenerateBody.pluginId body = Some p
                /\ License.pluginId l = as_STRING p)
  /\ License.pluginId l <> ""
  /\ GenerateBody.licenseType body = Some (License.licenseType l)
  /\ License.status l = active
  /\ License.issuedAt l = gen_now env
  /\ License.activationCount l = 0
  /\ License.maxActivations l = default 1 (GenerateBody.maxActivations body)
  /\ License.metadata l = ∅
  /\ License.expiresAt l
     = if (License.licenseType l =? "perpetual")%string
       then PERPETUAL_EXPIRES_AT
       else moment_add_days (gen_now env)
              (default 0 (LICENSE_VALIDITY_DAYS (License.licenseType l))).
Proof.
  intros Hgen.
  apply generate_Ok_inv in Hgen as (H1 & _ & _ & H4 & _ & -> & Hc).
  split; [now exists (generate_row body env)|].
  unfold License_stored, generate_row, expiresAt_for.
  destruct (GenerateBody.pluginId body) as [p|]; [|discriminate].
  destruct (GenerateBody.licenseType body) as [lt|]; [|discriminate].
  cbn. rewrite (as_STRING_short _ (generateLicenseKey_short _)).
  repeat split; eauto.
  apply as_STRING_nonempty. now apply truthy_Some.
Qed.

Lemma generate_wf (body : GenerateBody.t) (env : GenerateEnv) (s : Store) :
  wf_store s -> wf_store (fst (generate body env s)).
Proof.
  intros Hwf.
  destruct (generate_cases body env s) as [(s' & l & E & _)|[-> _]];
    [|exact Hwf].
  rewrite E. apply generate_ok in E as (Hc & _ & Hk & _ & Hp & _).
  apply (License_create_wf l s); auto.
  rewrite Hk. apply generateLicenseKey_nonempty.
Qed.

Lemma handle_wf (s : Store) (r : Request) :
  wf_store s -> wf_store (handle s r).
Proof.
  destruct r; simpl;
    [apply generate_wf | apply validate_wf | apply revoke_wf].
Qed.

Lemma empty_store_wf : wf_store empty_store.
Proof. split; simpl; try constructor; tauto. Qed.

Lemma serve_wf (rs : list Request) (s : Store) :
  wf_store s -> wf_store (serve rs s).
Proof.
  revert s. induction rs as [|r rs IH]; simpl; intros s Hwf; [exact Hwf|].
  apply IH. now apply handle_wf.
Qed.

(** ** [activationCount] on every reachable store *)

Lemma count_inv_License_update (pk : string) (f : License.t -> License.t)
    (s : Store) :
  (forall l, License.id (f l) = License.id l) ->
  (forall l, License.licenseKey (f l) = License.licenseKey l) ->
  (forall l, License.pluginId (f l) = License.pluginId l) ->
  (forall l, License.activationCount (f l) = License.activationCount l) ->
  (forall l, License.maxActivations (f l) = License.maxActivations l) ->
  (forall l, License.status (f l) = active -> License.status l = active) ->
  count_inv s -> count_inv (License_update pk f s).
Proof.
  intros Hi Hk Hp Hc Hmax Hst [Hwf Hinv].
  split; [now apply License_update_wf|].
  intros l' Hl'. apply License_update_In in Hl' as [l [Hl ->]].
  destruct (Hinv l Hl) as (Hcount & Hrows & Hq).
  unfold counted, active_rows, quota_stored in *.
  destruct (License.id l =? pk)%string; [|auto].
  rewrite Hi, Hc, Hmax. split; [exact Hcount|]. split; [|exact Hq].
  intros H. apply Hrows, Hst, H.
Qed.

Lemma count_inv_mapped (h : LicenseActivation.t -> LicenseActivation.t)
    (s : Store) :
  (forall a, LicenseActivation.licenseId (h a)
             = LicenseActivation.licenseId a) ->
  (forall l a, In l (licenses s) -> License.status l = active ->
               In a (activations s) ->
               LicenseActivation.licenseId a = License.id l ->
               is_active a = true -> is_active (h a) = true) ->
  count_inv s -> count_inv (mkStore (licenses s) (List.map h (activations s))).
Proof.
  intros Hh Hact [Hwf Hinv]. split; [now apply mapped_activations_wf|].
  intros l Hl. simpl in Hl. destruct (Hinv l Hl) as (Hcount & Hrows & Hq).
  unfold counted, active_rows in *.
  rewrite activations_of_mapped by exact Hh.
  replace (mkStore (licenses s) (activations s)) with s by now destruct s.
  rewrite List.length_map. split; [exact Hcount|]. split; [|exact Hq].
  intros Hst. rewrite List.Forall_forall. intros a' Ha'.
  apply in_map_iff in Ha' as [a [<- Ha]].
  pose proof (proj1 (List.Forall_forall _ _) (Hrows Hst) a Ha) as Hactive.
  apply activations_of_In in Ha as [Ha Hid]. eauto.
Qed.

Lemma count_inv_activation (s : Store) (l : License.t) (m uuid : string)
    (ip ua : option string) (now : Z) :
  In l (licenses s) -> License.status l = active ->
  count_inv s ->
  count_inv
    (License_update (License.id l)
       (License.set_activation (License.activationCount l + 1) now m)
       (mkStore (licenses s)
          (activations s
           ++ [LicenseActivation.mk uuid (License.id l) m ip ua now now
                 act_active]))).
Proof.
  intros Hl Hst [Hwf Hinv].
  set (row := LicenseActivation.mk uuid (License.id l) m ip ua now now
                act_active).
  assert (Hwf1 : wf_store (mkStore (licenses s) (activations s ++ [row]))).
  { apply added_activation_wf; [|exact Hwf]. simpl. now apply in_map. }
  split; [now apply License_update_wf|].
  intros l' Hl'.
  apply (License_update_stored _ (mkStore (licenses s) _) l l' Hwf1 Hl)
    in Hl'.
  unfold counted, active_rows.
  assert (Hsame : forall i, activations_of i (License_update (License.id l)
             (License.set_activation (License.activationCount l + 1) now m)
             (mkStore (licenses s) (activations s ++ [row])))
           = (activations_of i s
              ++ if (License.id l =? i)%string then [row] else [])%list).
  { intros i. unfold License_update. simpl.
    rewrite activations_of_added. now destruct s. }
  rewrite Hsame. destruct Hl' as [->|[Hl' Hne]].
  - destruct (Hinv l Hl) as (Hcount & Hrows & Hq).
    cbn [License.id License.set_activation License.activationCount
         License.status].
    rewrite String.eqb_refl, List.length_app. simpl.
    unfold counted in Hcount. split; [lia|]. split; [|exact Hq].
    intros _. apply List.Forall_app. split; [now apply Hrows|].
    now constructor.
  - simpl in Hl'. destruct (Hinv l' Hl') as (Hcount & Hrows & Hq).
    assert (E : (License.id l =? License.id l')%string = false)
      by (apply String.eqb_neq; congruence).
    rewrite E, List.app_nil_r. auto.
Qed.

Lemma filter_all {A : Type} (f : A -> bool) (l : list A) :
  Forall (fun x => f x = true) l -> List.filter f l = l.
Proof.
  induction 1 as [|x l Hx _ IH]; simpl; [reflexivity|].
  now rewrite Hx, IH.
Qed.

(** On a store where the counters are right, the counter of an active
    license below its quota can be incremented. *)
Lemma count_inv_room (s : Store) (l : License.t) :
  count_inv s -> In l (licenses s) -> License.status l = active ->
  activeActivations (License.id l) s < License.maxActivations l ->
  fits_INTEGER (License.activationCount l + 1) = true.
Proof.
  intros [_ Hinv] Hl Hst Hroom. destruct (Hinv l Hl) as (Hcount & Hrows & Hq).
  apply fits_INTEGER_spec in Hq. apply fits_INTEGER_spec.
  unfold counted in Hcount. unfold activeActivations in Hroom.
  rewrite (filter_all _ _ (Hrows Hst)) in Hroom. lia.
Qed.

Lemma count_inv_generate (body : GenerateBody.t) (env : GenerateEnv)
    (s : Store) :
  count_inv s -> count_inv (fst (generate body env s)).
Proof.
  intros Hinv. pose proof Hinv as [Hwf Hall].
  split; [now apply generate_wf|].
  destruct (generate_cases body env s) as [(s' & l & E & _)|[-> _]];
    [|exact Hall].
  rewrite E.
  apply generate_ok in E as (Hc & _ & _ & _ & _ & _ & Hst & _ & Hn & _).
  pose proof (activations_of_new_license l s s' Hwf Hc) as Hnone.
  pose proof (License_created_quota l s s' Hc) as Hfits.
  pose proof Hc as Hc'. apply License_create_Some in Hc' as [-> _].
  simpl. intros l' Hl'. apply in_app_iff in Hl' as [Hl'|[<-|[]]].
  - exact (Hall l' Hl').
  - unfold counted, active_rows, quota_stored. rewrite Hnone. simpl.
    split; [exact Hn|]. split; [constructor | exact Hfits].
Qed.

Lemma count_inv_validate (body : ValidateBody.t) (env : ValidateEnv)
    (s : Store) :
  count_inv s -> count_inv (fst (validate body env s)).
Proof.
  intros Hinv.
  destruct (validate_effects body env s)
    as [E|[[l [Hl E]]|[[a [_ E]]
         |[l [m (Hl & Hst & _ & Hroom & _ & _ & [[_ E]|[Hfits _]])]]]]];
    try rewrite E.
  - exact Hinv.
  - apply count_inv_License_update; auto. discriminate.
  - apply count_inv_mapped; [apply update_licenseId| |exact Hinv].
    intros l x _ _ _ _ Hx. now destruct (_ =? _)%string.
  - now apply count_inv_activation.
  - rewrite (count_inv_room s l Hinv Hl Hst Hroom) in Hfits. discriminate.
Qed.

Lemma count_inv_revoke (i : string) (reason : jsval) (now : Z) (s : Store) :
  count_inv s -> count_inv (fst (revoke i reason now s)).
Proof.
  intros Hinv. unfold revoke.
  destruct (uuid_in i) as [pk|]; [|exact Hinv].
  destruct (License_findByPk pk s) as [l|] eqn:Hfind; [|exact Hinv]. simpl.
  apply License_findByPk_Some in Hfind as [Hl Hid].
  apply (count_inv_mapped _ (License_update _ _ s)).
  - apply revokeAll_licenseId.
  - intros l' a Hl' Hst _ Ha Hactive.
    apply License_update_In in Hl' as [l0 [Hl0 ->]].
    destruct (String.eqb_spec (License.id l0) (License.id l)) as [E|E];
      [discriminate|].
    rewrite Ha. replace ((License.id l0 =? pk)%string) with false; [easy|].
    symmetry. apply String.eqb_neq. congruence.
  - apply count_inv_License_update; auto. discriminate.
Qed.

Lemma count_inv_serve (rs : list Request) (s : Store) :
  count_inv s -> count_inv (serve rs s).
Proof.
  revert s. induction rs as [|r rs IH]; simpl; intros s Hinv; [exact Hinv|].
  apply IH. destruct r; simpl;
    [apply count_inv_generate | apply count_inv_validate
     | apply count_inv_revoke]; exact Hinv.
Qed.

Lemma count_inv_empty : count_inv empty_store.
Proof. split; [apply empty_store_wf | intros l []]. Qed.

(** C1 (as stated), refuted. Issue a one-year license, let machine A
    activate it, revoke it: the stored license still has
    [activationCount = 1] while none of its activations is active. *)
Lemma activationCount_after_revoke_counterexample :
  Scenario.revoked_store
  = serve [ReqGenerate (Scenario.gen_body (Some 1) "1-year") Scenario.gen_env;
           ReqValidate (Scenario.val_body (Some "A"))
                       (Scenario.val_env Scenario.a1 2000);
           ReqRevoke Scenario.license_id (JString "chargeback") 5000] empty_store
  /\ In Scenario.one_year_revoked (licenses Scenario.revoked_store)
  /\ License.activationCount Scenario.one_year_revoked = 1
  /\ activeActivations (License.id Scenario.one_year_revoked)
       Scenario.revoked_store = 0.
Proof.
  split; [reflexivity|]. rewrite scenario_revoked.
  split; [simpl; auto|]. split; reflexivity.
Qed.

(** C1 (amended). After any finite sequence of generate, validate and revoke
    requests on the empty store, the [activationCount] of every stored
    license equals the number of activation rows of that license, whatever
    their status; and for every license whose status is active it equals the
    number of its active activation rows. *)
Theorem activationCount_counts_rows (rs : list Request) (l : License.t) :
  In l (licenses (serve rs empty_store)) ->
  License.activationCount l
  = Z.of_nat (List.length
                (activations_of (License.id l) (serve rs empty_store)))
  /\ (License.status l = active ->
      License.activationCount l
      = activeActivations (License.id l) (serve rs empty_store)).
Proof.
  intros Hl.
  destruct (count_inv_serve rs empty_store count_inv_empty) as [_ Hinv].
  destruct (Hinv l Hl) as (Hcount & Hrows & _). split; [exact Hcount|].
  intros Hst. unfold activeActivations.
  now rewrite (filter_all _ _ (Hrows Hst)).
Qed.

Lemma activationCount_counts_rows_witness :
  In Scenario.one_year_activated
     (licenses (serve [ReqGenerate (Scenario.gen_body (Some 1) "1-year")
                         Scenario.gen_env;
                       ReqValidate (Scenario.val_body (Some "A"))
                         (Scenario.val_env Scenario.a1 2000)] empty_store))
  /\ License.activationCount Scenario.one_year_activated
     = Z.of_nat (List.length (activations_of Scenario.license_id Scenario.activated))
  /\ (License.status Scenario.one_year_activated = active ->
      License.activationCount Scenario.one_year_activated
      = activeActivations Scenario.license_id Scenario.activated).
Proof.
  split; [simpl; auto|].
  apply (activationCount_counts_rows
           [ReqGenerate (Scenario.gen_body (Some 1) "1-year")
              Scenario.gen_env;
            ReqValidate (Scenario.val_body (Some "A"))
              (Scenario.val_env Scenario.a1 2000)]
           Scenario.one_year_activated).
  simpl; auto.
Defined.

(** ** Validation of a revoked or past-due license *)

Lemma stored_license_lookup (s : Store) (l : License.t) :
  wf_store s -> In l (licenses s) ->
  License.licenseKey l <> "" /\ License.pluginId l <> ""
  /\ License_findOne (License.licenseKey l) (License.pluginId l) s = Some l.
Proof.
  intros Hwf Hl. destruct (wf_nonempty s Hwf l Hl) as [Hk Hp].
  auto using stored_license_found.
Qed.

(** C2 (as stated), refuted. The revoked one-year license of the scenario is
    validated after its expiry date: the verdict is "License has expired",
    not "License is revoked", and the stored status becomes expired. *)
Lemma validate_revoked_past_due_counterexample :
  In Scenario.one_year_revoked (licenses Scenario.revoked_store)
  /\ License.status Scenario.one_year_revoked = revoked
  /\ validate (body_for Scenario.one_year_revoked None)
       (Scenario.val_env Scenario.a2 Scenario.past_due) Scenario.revoked_store
     = (mkStore [License.set_status expired Scenario.one_year_revoked]
          [LicenseActivation.set_status act_revoked Scenario.activation_A],
        Invalid LicenseHasExpired)
  /\ message LicenseHasExpired = "License has expired".
Proof.
  rewrite scenario_revoked. split; [simpl; auto|].
  split; [reflexivity|]. split; reflexivity.
Qed.

(** C2 (amended). For every stored license whose status is revoked and whose
    [expiresAt] is not before the clock, a validate call with that license's
    key and plugin id (with or without a machine id) returns the invalid
    verdict "License is revoked" and leaves the store, hence the status,
    unchanged. *)
Theorem validate_revoked (s : Store) (l : License.t) (m : option string)
    (env : ValidateEnv) :
  wf_store s -> In l (licenses s) ->
  License.status l = revoked ->
  val_now env <= License.expiresAt l ->
  validate (body_for l m) env s = (s, Invalid (LicenseIs revoked))
  /\ message (LicenseIs revoked) = "License is revoked".
Proof.
  intros Hwf Hl Hst Hlive.
  destruct (stored_license_lookup s l Hwf Hl) as (Hk & Hp & Hfind).
  split; [|reflexivity]. unfold body_for.
  rewrite (validate_not_active _ _ env s l Hk Hp Hfind m Hlive)
    by (rewrite Hst; discriminate).
  now rewrite Hst.
Qed.

Lemma validate_revoked_witness :
  validate (body_for Scenario.one_year_revoked (Some "A"))
    (Scenario.val_env Scenario.a2 6000) Scenario.revoked_store
  = (Scenario.revoked_store, Invalid (LicenseIs revoked))
  /\ message (LicenseIs revoked) = "License is revoked".
Proof.
  apply (validate_revoked Scenario.revoked_store Scenario.one_year_revoked).
  - apply serve_wf, serve_wf, serve_wf, empty_store_wf.
  - rewrite scenario_revoked. simpl; auto.
  - reflexivity.
  - vm_compute. discriminate.
Defined.

Lemma License_update_noop (pk : string) (f : License.t -> License.t)
    (s : Store) :
  (forall x, In x (licenses s) -> License.id x = pk -> f x = x) ->
  License_update pk f s = s.
Proof.
  intros Hf. unfold License_update. destruct s as [ls acts]. simpl in *.
  f_equal. apply map_id_on. intros x Hx.
  destruct (String.eqb_spec (License.id x) pk); auto.
Qed.

Lemma set_status_same (l : License.t) :
  License.set_status (License.status l) l = l.
Proof. now destruct l. Qed.

(** Once the stored status is expired, a validate call for the license is
    refused and writes nothing new. *)
Lemma validate_expired_license (s : Store) (l : License.t)
    (body : ValidateBody.t) (env : ValidateEnv) :
  wf_store s -> In l (licenses s) -> License.status l = expired ->
  presents l body ->
  exists r, validate body env s = (s, Invalid r).
Proof.
  intros Hwf Hl Hst [Hbk Hbp].
  destruct (stored_license_lookup s l Hwf Hl) as (Hk & Hp & Hfind).
  destruct body as [bk bp bm]. simpl in Hbk, Hbp. subst bk bp.
  destruct (Z.lt_ge_cases (License.expiresAt l) (val_now env)) as [Hexp|Hlive].
  - exists LicenseHasExpired.
    rewrite (validate_expired _ _ env s l Hk Hp Hfind bm Hexp).
    f_equal. apply License_update_noop. intros x Hx Hid.
    assert (x = l)
      by exact (NoDup_map_inj_in _ _ _ _ (wf_ids s Hwf) Hx Hl Hid).
    subst x. rewrite <- Hst. apply set_status_same.
  - exists (LicenseIs (License.status l)).
    apply (validate_not_active _ _ env s l Hk Hp Hfind bm Hlive).
    rewrite Hst. discriminate.
Qed.

Lemma validate_all_expired_license (s : Store) (l : License.t)
    (calls : list (ValidateBody.t * ValidateEnv)) :
  wf_store s -> In l (licenses s) -> License.status l = expired ->
  Forall (fun c => presents l (fst c)) calls ->
  exists vs, validate_all calls s = (s, vs)
             /\ List.length vs = List.length calls
             /\ Forall (fun v => is_valid v = false) vs.
Proof.
  intros Hwf Hl Hst Hcalls.
  induction Hcalls as [|[body env] calls Hc _ IH]; simpl.
  - exists []. repeat split; constructor.
  - destruct (validate_expired_license s l body env Hwf Hl Hst Hc)
      as [r ->]. destruct IH as (vs & -> & Hlen & Hall).
    exists (Invalid r :: vs). simpl. repeat split; auto.
Qed.

(** C3. For every stored license with [expiresAt] strictly before the clock
    and status active, the first validate call with its key and plugin id
    stores the status expired and returns an invalid verdict ("License has
    expired"); every later sequence of validate calls for that license, at
    any clock values and with any machine ids, returns only invalid verdicts
    and leaves the store as it is, so the status stays expired. *)
Theorem validate_past_due_terminal (s : Store) (l : License.t)
    (m : option string) (env : ValidateEnv)
    (calls : list (ValidateBody.t * ValidateEnv)) :
  wf_store s -> In l (licenses s) ->
  License.status l = active ->
  License.expiresAt l < val_now env ->
  Forall (fun c => presents l (fst c)) calls ->
  exists s1,
    validate (body_for l m) env s = (s1, Invalid LicenseHasExpired)
    /\ License_findByPk (License.id l) s1
       = Some (License.set_status expired l)
    /\ exists vs, validate_all calls s1 = (s1, vs)
                  /\ List.length vs = List.length calls
                  /\ Forall (fun v => is_valid v = false) vs.
Proof.
  intros Hwf Hl Hst Hexp Hcalls.
  destruct (stored_license_lookup s l Hwf Hl) as (Hk & Hp & Hfind).
  exists (License_update (License.id l) (License.set_status expired) s).
  assert (Hwf1 : wf_store
            (License_update (License.id l) (License.set_status expired) s))
    by now apply License_update_wf.
  assert (Hl1 : In (License.set_status expired l)
            (licenses (License_update (License.id l)
                         (License.set_status expired) s))).
  { apply License_update_stored; auto. }
  split; [|split].
  - apply (validate_expired _ _ env s l Hk Hp Hfind m Hexp).
  - apply (stored_license_byPk _ _ Hwf1 Hl1).
  - apply (validate_all_expired_license _ _ calls Hwf1 Hl1); auto.
Qed.

Lemma validate_past_due_terminal_witness :
  exists s1,
    validate (body_for Scenario.one_year_activated None)
      (Scenario.val_env Scenario.a2 Scenario.past_due) Scenario.activated
    = (s1, Invalid LicenseHasExpired)
    /\ License_findByPk Scenario.license_id s1
       = Some (License.set_status expired Scenario.one_year_activated)
    /\ exists vs,
         validate_all
           [(Scenario.val_body (Some "A"), Scenario.val_env Scenario.a3 3000);
            (Scenario.val_body None,
             Scenario.val_env Scenario.a4 (Scenario.past_due + 1))] s1
         = (s1, vs)
         /\ List.length vs = 2%nat
         /\ Forall (fun v => is_valid v = false) vs.
Proof.
  apply (validate_past_due_terminal Scenario.activated
           Scenario.one_year_activated None
           (Scenario.val_env Scenario.a2 Scenario.past_due)
           [(Scenario.val_body (Some "A"), Scenario.val_env Scenario.a3 3000);
            (Scenario.val_body None,
             Scenario.val_env Scenario.a4 (Scenario.past_due + 1))]).
  - apply serve_wf, serve_wf, empty_store_wf.
  - simpl; auto.
  - reflexivity.
  - vm_compute. reflexivity.
  - repeat constructor.
Defined.

(** ** Activation admission *)

Lemma activeActivations_added (i : string) (ls : list License.t)
    (acts : list LicenseActivation.t) (row : LicenseActivation.t) :
  activeActivations i (mkStore ls (acts ++ [row]))
  = activeActivations i (mkStore ls acts)
    + if (LicenseActivation.licenseId row =? i)%string && is_active row
      then 1 else 0.
Proof.
  unfold activeActivations. rewrite activations_of_added.
  rewrite List.filter_app, List.length_app, Nat2Z.inj_add. f_equal.
  destruct (LicenseActivation.licenseId row =? i)%string; simpl;
    [|reflexivity].
  destruct (is_active row); reflexivity.
Qed.


(** C4 (as stated), refuted. The one-year license of the scenario is active,
    not past due and has its one slot free; the machine id
    [Scenario.long_machine], of 256 characters, has no activation for it.
    Validate does not create the activation and does not answer valid: the
    [machine_id] column refuses the id, the answer is "Internal server
    error" and the store is as before. *)
Lemma validate_new_machine_counterexample :
  In Scenario.one_year (licenses Scenario.issued)
  /\ License.status Scenario.one_year = active
  /\ 2000 <= License.expiresAt Scenario.one_year
  /\ String.length Scenario.long_machine = 256%nat
  /\ LicenseActivation_findOne Scenario.license_id Scenario.long_machine
       Scenario.issued = None
  /\ activeActivations Scenario.license_id Scenario.issued
     < License.maxActivations Scenario.one_year
  /\ validate (body_for Scenario.one_year (Some Scenario.long_machine))
       (Scenario.val_env Scenario.a1 2000) Scenario.issued
     = (Scenario.issued, Invalid InternalServerError)
  /\ message InternalServerError = "Internal server error".
Proof.
  rewrite scenario_issued. split; [simpl; auto|].
  split; [reflexivity|]. split; [discriminate|].
  repeat split; reflexivity.
Qed.



(** The scenario of the specification: one slot, machine A is admitted,
    machine B is refused, machine A is recognised again. *)
Example one_slot_scenario :
  validate_all [(Scenario.val_body (Some "A"), Scenario.val_env Scenario.a1 2000);
                (Scenario.val_body (Some "B"), Scenario.val_env Scenario.a2 3000);
                (Scenario.val_body (Some "A"), Scenario.val_env Scenario.a3 4000)]
    Scenario.issued
  = (mkStore [Scenario.one_year_activated]
       [LicenseActivation.set_lastSeenAt 4000 Scenario.activation_A],
     [valid_response Scenario.one_year_activated 364;
      Invalid MaxActivationsReached;
      valid_response Scenario.one_year_activated 364]).
Proof. reflexivity. Qed.

(** C8. For every stored license that is active and not past due, and every
    provided machine id that already has an active activation [a] for it,
    validate sets [lastSeenAt = now] on that activation and answers valid;
    the licenses, hence [activationCount], are as before. No bound on the
    number of activations is assumed: the same holds at the cap. *)
Theorem validate_known_machine (s : Store) (l : License.t)
    (machineId : string) (env : ValidateEnv) (a : LicenseActivation.t) :
  wf_store s -> In l (licenses s) ->
  License.status l = active ->
  val_now env <= License.expiresAt l ->
  machineId <> "" ->
  LicenseActivation_findOne (License.id l) machineId s = Some a ->
  exists s' info,
    validate (body_for l (Some machineId)) env s = (s', Valid info)
    /\ licenses s' = licenses s
    /\ activations s'
       = List.map (fun x => if (LicenseActivation.id x
                                =? LicenseActivation.id a)%string
                            then LicenseActivation.set_lastSeenAt
                                   (val_now env) x
                            else x) (activations s)
    /\ In (LicenseActivation.set_lastSeenAt (val_now env) a) (activations s')
    /\ LicenseActivation.lastSeenAt
         (LicenseActivation.set_lastSeenAt (val_now env) a) = val_now env
    /\ ValidInfo.activationCount info = License.activationCount l
    /\ activeActivations (License.id l) s'
       = activeActivations (License.id l) s.
Proof.
  intros Hwf Hl Hst Hlive Hm Ha.
  destruct (stored_license_lookup s l Hwf Hl) as (Hk & Hp & Hfind).
  eexists. eexists. split.
  - apply (validate_seen _ _ env s l Hk Hp Hfind Hlive Hst machineId Hm
             a Ha).
  - split; [reflexivity|]. split; [reflexivity|]. split; [|split; [|split]].
    + simpl. apply in_map_iff. exists a.
      rewrite String.eqb_refl. split; [reflexivity|].
      unfold LicenseActivation_findOne in Ha.
      now apply find_some in Ha as [Ha _].
    + reflexivity.
    + reflexivity.
    + unfold activeActivations, LicenseActivation_update.
      rewrite activations_of_mapped by (intros; apply update_licenseId).
      rewrite filter_map_commute, List.length_map.
      * now destruct s.
      * intros x. now destruct (_ =? _)%string.
Qed.

Lemma validate_known_machine_witness :
  exists s' info,
    validate (body_for Scenario.one_year_activated (Some "A"))
      (Scenario.val_env Scenario.a2 9000) Scenario.activated = (s', Valid info)
    /\ licenses s' = licenses Scenario.activated
    /\ activations s'
       = List.map (fun x => if (LicenseActivation.id x =? Scenario.a1)%string
                            then LicenseActivation.set_lastSeenAt 9000 x
                            else x) (activations Scenario.activated)
    /\ In (LicenseActivation.set_lastSeenAt 9000 Scenario.activation_A)
          (activations s')
    /\ LicenseActivation.lastSeenAt
         (LicenseActivation.set_lastSeenAt 9000 Scenario.activation_A) = 9000
    /\ ValidInfo.activationCount info = 1
    /\ activeActivations Scenario.license_id s' = activeActivations Scenario.license_id Scenario.activated.
Proof.
  apply (validate_known_machine Scenario.activated
           Scenario.one_year_activated "A" (Scenario.val_env Scenario.a2 9000)
           Scenario.activation_A).
  - apply serve_wf, serve_wf, empty_store_wf.
  - simpl; auto.
  - reflexivity.
  - vm_compute. discriminate.
  - discriminate.
  - reflexivity.
Defined.

(** C9. For every stored license that is active and not past due, a validate
    call whose machine id is absent (or empty) answers valid and leaves the
    whole store as it is: no activation row is created or modified and the
    license keeps its [activationCount], [activatedAt] and [activatedBy]. *)
Theorem validate_without_machine (s : Store) (l : License.t)
    (m : option string) (env : ValidateEnv) :
  wf_store s -> In l (licenses s) ->
  License.status l = active ->
  val_now env <= License.expiresAt l ->
  truthy m = false ->
  exists info,
    validate (body_for l m) env s = (s, Valid info)
    /\ ValidInfo.status info = active
    /\ ValidInfo.activationCount info = License.activationCount l.
Proof.
  intros Hwf Hl Hst Hlive Hm.
  destruct (stored_license_lookup s l Hwf Hl) as (Hk & Hp & Hfind).
  eexists. split.
  - apply (validate_status_only _ _ env s l Hk Hp Hfind Hlive Hst m Hm).
  - split; [exact Hst | reflexivity].
Qed.

Lemma validate_without_machine_witness :
  exists info,
    validate (body_for Scenario.one_year_activated None)
      (Scenario.val_env Scenario.a2 9000) Scenario.activated
    = (Scenario.activated, Valid info)
    /\ ValidInfo.status info = active
    /\ ValidInfo.activationCount info = 1.
Proof.
  apply (validate_without_machine Scenario.activated
           Scenario.one_year_activated None (Scenario.val_env Scenario.a2 9000)).
  - apply serve_wf, serve_wf, empty_store_wf.
  - simpl; auto.
  - reflexivity.
  - vm_compute. discriminate.
  - reflexivity.
Defined.

(** ** Revocation *)



(** C5 (as stated), refuted. No license of the store has the id
    "license-1", yet revoking it is not answered NotFound: the text is not
    a UUID, the lookup by primary key fails, and the answer is the 500
    "Failed to revoke license". *)
Lemma revoke_license_counterexample :
  (forall l, In l (licenses Scenario.activated) ->
             License.id l <> "license-1")
  /\ revoke "license-1" (JString "chargeback") 5000 Scenario.activated
     = (Scenario.activated, RevokeFailed)
  /\ RevokeFailed <> RevokeNotFound.
Proof.
  split; [|split; [reflexivity | discriminate]].
  intros l [<-|[]]. discriminate.
Qed.



(** The three answers of revoke on the store of the scenario: the id of the
    stored license, also written in upper case and in braces; a UUID that
    no license has; a text that is not a UUID. *)
Example revoke_answers :
  uuid_in Scenario.license_id = Some Scenario.license_id
  /\ uuid_in "{3F2A6C1E8B47-4D09-9A53-6E1D2C7B4F80}"
     = Some Scenario.license_id
  /\ snd (revoke "{3F2A6C1E8B47-4D09-9A53-6E1D2C7B4F80}" JUndefined 5000
            Scenario.activated) = RevokeOk
  /\ revoke Neighbour.license_id (JString "chargeback") 5000
       Scenario.activated
     = (Scenario.activated, RevokeNotFound)
  /\ revoke "3f2a6c1e-8b47-4d09-9a53-6e1d2c7b4f8"
       (JString "chargeback") 5000 Scenario.activated
     = (Scenario.activated, RevokeFailed)
  /\ revoke "3f2a6c1e-8b47-4d09-9a53-6e1d2c7b4f80 "
       (JString "chargeback") 5000 Scenario.activated
     = (Scenario.activated, RevokeFailed).
Proof. repeat split. Qed.

(** After a revocation no validate call for the license is answered valid:
    the answer is "License has expired" past the expiry date and "License is
    revoked" up to it. *)
Lemma validate_after_revoke (s : Store) (l : License.t)
    (licenseId : string) (reason : jsval) (now : Z) (m : option string)
    (env : ValidateEnv) :
  wf_store s -> In l (licenses s) ->
  uuid_in licenseId = Some (License.id l) ->
  snd (validate (body_for l m) env
         (fst (revoke licenseId reason now s)))
  = Invalid (if License.expiresAt l <? val_now env
             then LicenseHasExpired else LicenseIs revoked).
Proof.
  intros Hwf Hl Hpk.
  set (l' := License.set_status_metadata revoked
               (revocation_metadata (License.metadata l) reason now) l).
  assert (Hwf' : wf_store (fst (revoke licenseId reason now s)))
    by now apply revoke_wf.
  assert (Hl' : In l' (licenses (fst (revoke licenseId reason now s)))).
  { unfold revoke. rewrite Hpk, (stored_license_byPk s l Hwf Hl). simpl.
    apply (License_update_stored _ s l l' Hwf Hl). now left. }
  destruct (stored_license_lookup _ l' Hwf' Hl') as (Hk & Hp & Hfind).
  change (body_for l m) with (body_for l' m). unfold body_for.
  destruct (Z.ltb_spec (License.expiresAt l) (val_now env)) as [Hexp|Hlive].
  - now rewrite (validate_expired _ _ env _ l' Hk Hp Hfind m Hexp).
  - rewrite (validate_not_active _ _ env _ l' Hk Hp Hfind m Hlive);
      [reflexivity | discriminate].
Qed.

(** ** The valid verdict *)

Lemma validate_valid_inv (body : ValidateBody.t) (env : ValidateEnv)
    (s s' : Store) (info : ValidInfo.t) :
  validate body env s = (s', Valid info) ->
  exists l l',
    In l (licenses s) /\ presents l body
    /\ License.status l = active
    /\ val_now env <= License.expiresAt l
    /\ License.expiresAt l' = License.expiresAt l
    /\ Valid info
       = valid_response l'
           (moment_diff_days (License.expiresAt l) (val_now env)).
Proof.
  unfold validate. destruct body as [[k|] [p|] m]; simpl; try discriminate.
  2: { destruct (negb (negb (k =? "")%string)); discriminate. }
  destruct (negb (negb (k =? "")%string) || negb (negb (p =? "")%string));
    [discriminate|].
  destruct (License_findOne k p s) as [l|] eqn:Hfind; [|discriminate].
  apply License_findOne_Some in Hfind as (Hl & Hk & Hp).
  destruct (Z.ltb_spec (License.expiresAt l) (val_now env)) as [|Hlive];
    [discriminate|].
  destruct (LicenseStatus_eqb (License.status l) active) eqn:Hst;
    [|discriminate].
  assert (License.status l = active) by (destruct (License.status l); easy).
  assert (presents l (ValidateBody.mk (Some k) (Some p) m))
    by (split; simpl; congruence).
  cbn [negb].
  destruct (truthy m).
  - destruct (LicenseActivation_findOne _ _ s) as [a|].
    + intros [= <- <-]. exists l, l. auto 10.
    + destruct (_ >=? _); [discriminate|].
      destruct (LicenseActivation_create _ s); [|discriminate].
      destruct (fits_INTEGER _); [|discriminate].
      intros [= <- <-].
      exists l, (License.set_activation (License.activationCount l + 1)
                   (val_now env) (default "" m) l).
      auto 10.
  - intros [= <- <-]. exists l, l. auto 10.
Qed.

(** C6. For every validate call that answers valid, [daysRemaining] is the
    floor of [(expiresAt - now)] in days, [expiresAt] being that of the
    license presented, and each warning flag is true exactly when
    [daysRemaining] is at most its threshold of 90, 60, 45, 30, 15 or 7
    days. *)
Theorem valid_verdict_daysRemaining (body : ValidateBody.t)
    (env : ValidateEnv) (s s' : Store) (info : ValidInfo.t) :
  validate body env s = (s', Valid info) ->
  (exists l, In l (licenses s) /\ presents l body
             /\ ValidInfo.expiresAt info = License.expiresAt l)
  /\ ValidInfo.daysRemaining info
     = (ValidInfo.expiresAt info - val_now env) / MS_PER_DAY
  /\ (show90DayWarning (ValidInfo.warningThresholds info) = true
      <-> ValidInfo.daysRemaining info <= 90)
  /\ (show60DayWarning (ValidInfo.warningThresholds info) = true
      <-> ValidInfo.daysRemaining info <= 60)
  /\ (show45DayWarning (ValidInfo.warningThresholds info) = true
      <-> ValidInfo.daysRemaining info <= 45)
  /\ (show30DayWarning (ValidInfo.warningThresholds info) = true
      <-> ValidInfo.daysRemaining info <= 30)
  /\ (show15DayWarning (ValidInfo.warningThresholds info) = true
      <-> ValidInfo.daysRemaining info <= 15)
  /\ (showDailyWarning (ValidInfo.warningThresholds info) = true
      <-> ValidInfo.daysRemaining info <= 7).
Proof.
  intros Hv.
  apply validate_valid_inv in Hv
    as (l & l' & Hl & Hpres & _ & Hlive & Hexp & Hinfo).
  injection Hinfo as ->. cbn. rewrite Hexp.
  split; [exists l; auto|]. split.
  - unfold moment_diff_days. apply Z.quot_div_nonneg; [lia|reflexivity].
  - repeat split; apply Z.leb_le.
Qed.

Lemma valid_verdict_daysRemaining_witness :
  (exists l, In l (licenses Scenario.issued)
             /\ presents l (Scenario.val_body (Some "A"))
             /\ 31536001000 = License.expiresAt l)
  /\ 364 = (31536001000 - 2000) / MS_PER_DAY
  /\ (false = true <-> 364 <= 90)
  /\ (false = true <-> 364 <= 60)
  /\ (false = true <-> 364 <= 45)
  /\ (false = true <-> 364 <= 30)
  /\ (false = true <-> 364 <= 15)
  /\ (false = true <-> 364 <= 7).
Proof.
  apply (valid_verdict_daysRemaining (Scenario.val_body (Some "A"))
           (Scenario.val_env Scenario.a1 2000) Scenario.issued Scenario.activated
           (ValidInfo.mk Scenario.license_id active "1-year" 31536001000 364 1 1
              (mkWarningThresholds false false false false false false))).
  reflexivity.
Defined.

(** ** Issuance *)

Lemma find_snoc {A : Type} (f : A -> bool) (l : list A) (x : A) :
  (forall y, In y l -> f y = false) -> f x = true ->
  List.find f (l ++ [x]) = Some x.
Proof.
  intros Hl Hx. induction l as [|y l IH]; simpl; [now rewrite Hx|].
  rewrite (Hl y) by (simpl; auto). apply IH. intros; apply Hl; simpl; auto.
Qed.

(** The license that [License.create] has just stored is the one its key
    and plugin id look up. *)
Lemma created_license_found (row : License.t) (s s' : Store) :
  License_created row s s' ->
  In row (licenses s')
  /\ License_findOne (License.licenseKey row) (License.pluginId row) s'
     = Some row.
Proof.
  intros Hc. apply License_create_Some in Hc as [-> Hfresh]. split.
  - simpl. apply in_app_iff. simpl; auto.
  - unfold License_findOne. simpl. apply find_snoc.
    + intros y Hy. apply Hfresh in Hy as [_ Hy].
      apply String.eqb_neq in Hy. now rewrite Hy.
    + now rewrite !String.eqb_refl.
Qed.

Lemma find_map_preserving {A : Type} (f : A -> bool) (g : A -> A)
    (l : list A) :
  (forall x, f (g x) = f x) ->
  List.find f (List.map g l) = option_map g (List.find f l).
Proof.
  intros Hg. induction l as [|x l IH]; simpl; [reflexivity|].
  rewrite Hg. destruct (f x); [reflexivity | exact IH].
Qed.

Lemma created_license_byPk (row : License.t) (s s' : Store) :
  License_created row s s' ->
  License_findByPk (License.id row) s' = Some row.
Proof.
  intros Hc. apply License_create_Some in Hc as [-> Hfresh].
  unfold License_findByPk. simpl. apply find_snoc.
  - intros y Hy. apply Hfresh in Hy as [Hy _].
    now apply String.eqb_neq.
  - apply String.eqb_refl.
Qed.

Lemma License_update_byPk (f : License.t -> License.t) (s : Store)
    (l : License.t) :
  (forall x, License.id (f x) = License.id x) ->
  License_findByPk (License.id l) s = Some l ->
  License_findByPk (License.id l) (License_update (License.id l) f s)
  = Some (f l).
Proof.
  intros Hf Hfind. unfold License_findByPk, License_update. simpl.
  rewrite find_map_preserving.
  - fold (License_findByPk (License.id l) s). rewrite Hfind. simpl.
    now rewrite String.eqb_refl.
  - intros x. destruct (License.id x =? License.id l)%string eqn:E;
      [now rewrite Hf | exact E].
Qed.

(** The answers of validate for a stored license that is active and not
    past due: valid, the quota, or a failed write; the license stays active
    with its expiry date. *)
Lemma validate_live_cases (s : Store) (l : License.t) (m : option string)
    (env : ValidateEnv) :
  License.licenseKey l <> "" -> License.pluginId l <> "" ->
  License_findOne (License.licenseKey l) (License.pluginId l) s = Some l ->
  License_findByPk (License.id l) s = Some l ->
  License.status l = active -> val_now env <= License.expiresAt l ->
  exists s' v l',
    validate (body_for l m) env s = (s', v)
    /\ (is_valid v = true \/ v = Invalid MaxActivationsReached
        \/ v = Invalid InternalServerError)
    /\ (truthy m = false ->
        s' = s
        /\ v = valid_response l
                 (moment_diff_days (License.expiresAt l) (val_now env)))
    /\ License_findByPk (License.id l) s' = Some l'
    /\ License.status l' = active
    /\ License.expiresAt l' = License.expiresAt l.
Proof.
  intros Hk Hp Hfind Hpk Hst Hlive. unfold body_for.
  destruct (truthy m) eqn:Hm.
  2: { exists s, (valid_response l
                   (moment_diff_days (License.expiresAt l) (val_now env))), l.
       rewrite (validate_status_only _ _ env s l Hk Hp Hfind Hlive Hst m Hm).
       auto 10. }
  destruct m as [mid|]; [|discriminate]. apply truthy_Some in Hm.
  destruct (LicenseActivation_findOne (License.id l) mid s) as [a|] eqn:Ha.
  { rewrite (validate_seen _ _ env s l Hk Hp Hfind Hlive Hst mid Hm a Ha).
    eexists. eexists. exists l. split; [reflexivity|].
    split; [now left|]. split; [discriminate|]. auto. }
  destruct (Z.le_gt_cases (License.maxActivations l)
              (activeActivations (License.id l) s)) as [Hcap|Hroom].
  { rewrite (validate_cap_reached _ _ env s l Hk Hp Hfind Hlive Hst mid Hm
               Ha Hcap).
    eexists. eexists. exists l. split; [reflexivity|].
    split; [auto|]. split; [discriminate|]. auto. }
  destruct (LicenseActivation_create
              (LicenseActivation.mk (val_uuid env) (License.id l) mid
                 (val_ip env) (val_userAgent env) (val_now env)
                 (val_now env) act_active) s) as [s1|] eqn:Hc.
  2: { rewrite (validate_insert_rejected _ _ env s l Hk Hp Hfind Hlive Hst
                  mid Hm Ha Hroom Hc).
       eexists. eexists. exists l. split; [reflexivity|].
       split; [auto|]. split; [discriminate|]. auto. }
  pose proof (LicenseActivation_create_Some _ _ _ Hc) as Hs1.
  destruct (fits_INTEGER (License.activationCount l + 1)) eqn:Hfits.
  - rewrite (validate_activates _ _ env s l Hk Hp Hfind Hlive Hst mid Hm Ha
               Hroom s1 Hc Hfits).
    eexists. eexists.
    exists (License.set_activation (License.activationCount l + 1)
              (val_now env) (as_STRING mid) l).
    split; [reflexivity|]. split; [now left|]. split; [discriminate|].
    split; [|auto]. apply License_update_byPk; [reflexivity|].
    subst s1. exact Hpk.
  - rewrite (validate_update_rejected _ _ env s l Hk Hp Hfind Hlive Hst mid
               Hm Ha Hroom s1 Hc Hfits).
    eexists. eexists. exists l. split; [reflexivity|].
    split; [auto|]. split; [discriminate|]. subst s1. auto.
Qed.

(** C7. A successful generate stores the license it answers with, at the
    end of the table, where its key and plugin id and its id find it, with
    [issuedAt] the clock of the request. With [licenseType] "3-year" the
    stored [expiresAt] is exactly 1095 days after [issuedAt]. With
    "perpetual" it is 2099-12-31, the value of [new Date('2099-12-31')],
    and the expiry check never triggers before that date: a validate call
    for the license at any clock value up to it finds the license, passes
    the check and is answered valid (or, with a machine id, refused for the
    quota or for a failed write), never "License has expired"; without a
    machine id it is answered valid with that expiry date and writes
    nothing; and the stored license stays active with its expiry date. *)
Theorem generate_expiresAt (body : GenerateBody.t) (env : GenerateEnv)
    (s s' : Store) (l : License.t) :
  generate body env s = (s', GenerateOk l) ->
  (s' = mkStore (licenses s ++ [l]) (activations s)
   /\ License_findOne (License.licenseKey l) (License.pluginId l) s' = Some l
   /\ License_findByPk (License.id l) s' = Some l
   /\ License.status l = active
   /\ License.issuedAt l = gen_now env)
  /\ (GenerateBody.licenseType body = Some "3-year" ->
      License.licenseType l = "3-year"
      /\ License.expiresAt l = License.issuedAt l + 1095 * MS_PER_DAY)
  /\ (GenerateBody.licenseType body = Some "perpetual" ->
      License.licenseType l = "perpetual"
      /\ License.expiresAt l = Date_of_ymd 2099 12 31
      /\ forall (m : option string) (venv : ValidateEnv),
           val_now venv <= Date_of_ymd 2099 12 31 ->
           (License.expiresAt l <? val_now venv) = false
           /\ exists s'' v l'',
                validate (body_for l m) venv s' = (s'', v)
                /\ v <> Invalid LicenseHasExpired
                /\ (is_valid v = true \/ v = Invalid MaxActivationsReached
                    \/ v = Invalid InternalServerError)
                /\ (truthy m = false ->
                    s'' = s'
                    /\ exists info,
                         v = Valid info
                         /\ ValidInfo.licenseId info = License.id l
                         /\ ValidInfo.expiresAt info = Date_of_ymd 2099 12 31)
                /\ License_findByPk (License.id l) s'' = Some l''
                /\ License.status l'' = active
                /\ License.expiresAt l'' = Date_of_ymd 2099 12 31).
Proof.
  intros Hgen.
  apply generate_ok in Hgen
    as (Hc & _ & Hk & _ & Hp & Hlt & Hst & Hiss & _ & _ & _ & Hexp).
  pose proof (created_license_found _ _ _ Hc) as [_ Hfind].
  pose proof (created_license_byPk _ _ _ Hc) as Hpk.
  assert (Hk' : License.licenseKey l <> "")
    by (rewrite Hk; apply generateLicenseKey_nonempty).
  split; [|split]; [| |].
  - apply License_create_Some in Hc as [Hs' _]. auto.
  - intros Htype. rewrite Htype in Hlt. injection Hlt as Hlt.
    rewrite <- Hlt in Hexp. simpl in Hexp. rewrite Hiss. auto.
  - intros Htype. rewrite Htype in Hlt. injection Hlt as Hlt.
    rewrite <- Hlt in Hexp. simpl in Hexp.
    split; [auto|]. split; [exact Hexp|]. intros m venv Hnow.
    fold PERPETUAL_EXPIRES_AT in Hnow. rewrite <- Hexp in Hnow.
    split; [now apply Z.ltb_ge|].
    destruct (validate_live_cases s' l m venv Hk' Hp Hfind Hpk Hst Hnow)
      as (s'' & v & l'' & Hv & Hcases & Hnone & Hpk'' & Hst'' & Hexp'').
    exists s'', v, l''. split; [exact Hv|]. split.
    { destruct Hcases as [H|[->| ->]]; try discriminate.
      intros ->. discriminate. }
    split; [exact Hcases|]. split.
    { intros Hm. destruct (Hnone Hm) as [-> ->]. split; [reflexivity|].
      eexists. split; [reflexivity|]. split; [reflexivity|]. exact Hexp. }
    split; [exact Hpk''|]. split; [exact Hst''|]. now rewrite Hexp''.
Qed.

Lemma generate_expiresAt_witness :
  (let l := Scenario.issued_license 1 "3-year" 94608001000 in
   License_findByPk Scenario.license_id (mkStore [l] []) = Some l
   /\ License.issuedAt l = 1000
   /\ License.expiresAt l = License.issuedAt l + 1095 * MS_PER_DAY)
  /\ (let l := Scenario.issued_license 1 "perpetual" 4102358400000 in
      License.expiresAt l = Date_of_ymd 2099 12 31
      /\ forall (m : option string) (venv : ValidateEnv),
           val_now venv <= Date_of_ymd 2099 12 31 ->
           (License.expiresAt l <? val_now venv) = false
           /\ exists s'' v l'',
                validate (body_for l m) venv (mkStore [l] []) = (s'', v)
                /\ v <> Invalid LicenseHasExpired
                /\ (is_valid v = true \/ v = Invalid MaxActivationsReached
                    \/ v = Invalid InternalServerError)
                /\ (truthy m = false ->
                    s'' = mkStore [l] []
                    /\ exists info,
                         v = Valid info
                         /\ ValidInfo.licenseId info = License.id l
                         /\ ValidInfo.expiresAt info = Date_of_ymd 2099 12 31)
                /\ License_findByPk (License.id l) s'' = Some l''
                /\ License.status l'' = active
                /\ License.expiresAt l'' = Date_of_ymd 2099 12 31).
Proof.
  split.
  - pose proof (generate_expiresAt
                  (Scenario.gen_body (Some 1) "3-year") Scenario.gen_env
                  empty_store _ _ eq_refl) as (H1 & H2 & _).
    destruct H1 as (_ & _ & Hpk & _ & Hiss).
    destruct (H2 eq_refl) as [_ Hexp]. simpl. auto.
  - pose proof (generate_expiresAt
                  (Scenario.gen_body None "perpetual") Scenario.gen_env
                  empty_store _ _ eq_refl) as (_ & _ & H3).
    destruct (H3 eq_refl) as (_ & Hexp & Hval). simpl. auto.
Defined.

Example generate_perpetual :
  generate (Scenario.gen_body None "perpetual") Scenario.gen_env empty_store
  = (mkStore [Scenario.issued_license 1 "perpetual" 4102358400000] [],
     GenerateOk (Scenario.issued_license 1 "perpetual" 4102358400000)).
Proof. reflexivity. Qed.

(** ** A license issued with no activation slot *)




(** C10 (as stated), refuted. The license created with
    [maxActivations = 0] is validated after its expiry date: the call that
    carries a machine id is answered "License has expired", not "Maximum
    number of activations reached", and the call without a machine id is
    not answered valid. *)
Lemma generate_zero_maxActivations_counterexample :
  generate (Scenario.gen_body (Some 0) "1-year") Scenario.gen_env empty_store
  = (mkStore [Scenario.issued_license 0 "1-year" 31536001000] [],
     GenerateOk (Scenario.issued_license 0 "1-year" 31536001000))
  /\ snd (validate (Scenario.val_body (Some "A"))
            (Scenario.val_env Scenario.a1 Scenario.past_due)
            (mkStore [Scenario.issued_license 0 "1-year" 31536001000] []))
     = Invalid LicenseHasExpired
  /\ snd (validate (Scenario.val_body None)
            (Scenario.val_env Scenario.a1 Scenario.past_due)
            (mkStore [Scenario.issued_license 0 "1-year" 31536001000] []))
     = Invalid LicenseHasExpired
  /\ message LicenseHasExpired = "License has expired".
Proof. repeat split. Qed.



Example zero_maxActivations_scenario :
  let s := mkStore [Scenario.issued_license 0 "1-year" 31536001000] [] in
  generate (Scenario.gen_body (Some 0) "1-year") Scenario.gen_env empty_store
  = (s, GenerateOk (Scenario.issued_license 0 "1-year" 31536001000))
  /\ validate_all [(Scenario.val_body (Some "A"), Scenario.val_env Scenario.a1 2000);
                   (Scenario.val_body None, Scenario.val_env Scenario.a2 3000);
                   (Scenario.val_body (Some "B"), Scenario.val_env Scenario.a3 4000)]
       s
     = (s, [Invalid MaxActivationsReached;
            valid_response (Scenario.issued_license 0 "1-year" 31536001000)
              364;
            Invalid MaxActivationsReached]).
Proof. split; reflexivity. Qed.

(** * Further properties of the license routes *)

Lemma filter_map_le {A : Type} (f : A -> bool) (h : A -> A) (l : list A) :
  (forall x, In x l -> f (h x) = true -> f x = true) ->
  (List.length (List.filter f (List.map h l))
   <= List.length (List.filter f l))%nat.
Proof.
  induction l as [|x l IH]; simpl; intros Hh; [lia|].
  assert (IH' := IH (fun y Hy => Hh y (or_intror Hy))).
  destruct (f (h x)) eqn:E.
  - rewrite (Hh x (or_introl eq_refl) E). simpl. lia.
  - destruct (f x); simpl; lia.
Qed.


(** An update of activation rows that keeps their license and activates
    none does not raise the number of active activations of any license. *)
Lemma activeActivations_mapped_le
    (h : LicenseActivation.t -> LicenseActivation.t) (i : string)
    (ls ls' : list License.t) (acts : list LicenseActivation.t) :
  (forall a, LicenseActivation.licenseId (h a)
             = LicenseActivation.licenseId a) ->
  (forall a, is_active (h a) = true -> is_active a = true) ->
  activeActivations i (mkStore ls' (List.map h acts))
  <= activeActivations i (mkStore ls acts).
Proof.
  intros Hid Hact. unfold activeActivations.
  rewrite activations_of_mapped by exact Hid.
  apply inj_le. unfold activations_of. simpl.
  apply filter_map_le. auto.
Qed.

Lemma revokeAll_is_active (i : string) (a : LicenseActivation.t) :
  is_active (if (LicenseActivation.licenseId a =? i)%string && is_active a
             then LicenseActivation.set_status act_revoked a else a) = true ->
  is_active a = true.
Proof. destruct (_ && _) eqn:E; [discriminate | auto]. Qed.

Lemma update_is_active (pk : string) (t : Z) (a : LicenseActivation.t) :
  is_active (if (LicenseActivation.id a =? pk)%string
             then LicenseActivation.set_lastSeenAt t a else a)
  = is_active a.
Proof. now destruct (_ =? _)%string. Qed.

Lemma cap_respected_License_update (pk : string)
    (f : License.t -> License.t) (s : Store) :
  (forall l, License.id (f l) = License.id l) ->
  (forall l, License.maxActivations (f l) = License.maxActivations l) ->
  cap_respected s -> cap_respected (License_update pk f s).
Proof.
  intros Hi Hm Hcap l' Hl'. apply License_update_In in Hl' as [l [Hl ->]].
  change (activeActivations ?i (License_update pk f s))
    with (activeActivations i s).
  destruct (License.id l =? pk)%string; rewrite ?Hi, ?Hm; auto.
Qed.

Lemma cap_respected_mapped
    (h : LicenseActivation.t -> LicenseActivation.t) (s : Store) :
  (forall a, LicenseActivation.licenseId (h a)
             = LicenseActivation.licenseId a) ->
  (forall a, is_active (h a) = true -> is_active a = true) ->
  cap_respected s ->
  cap_respected (mkStore (licenses s) (List.map h (activations s))).
Proof.
  intros Hid Hact Hcap l Hl. simpl in Hl. specialize (Hcap l Hl).
  pose proof (activeActivations_mapped_le h (License.id l) (licenses s)
                (licenses s) (activations s) Hid Hact) as Hle.
  replace (mkStore (licenses s) (activations s)) with s in Hle
    by now destruct s.
  lia.
Qed.

Lemma cap_respected_validate (body : ValidateBody.t) (env : ValidateEnv)
    (s : Store) :
  wf_store s -> cap_respected s -> cap_respected (fst (validate body env s)).
Proof.
  intros Hwf Hcap.
  destruct (validate_effects body env s)
    as [E|[[l [Hl E]]|[[a [_ E]]
         |[l [m (Hl & _ & _ & Hroom & _ & _ & [[_ E]|[_ E]])]]]]];
    rewrite E; clear E.
  - exact Hcap.
  - now apply cap_respected_License_update.
  - apply cap_respected_mapped; auto using update_licenseId.
    intros x. now rewrite update_is_active.
  - set (row := LicenseActivation.mk (val_uuid env) (License.id l)
                  (as_STRING m) (option_map as_STRING (val_ip env))
                  (val_userAgent env) (val_now env) (val_now env)
                  act_active).
    set (s1 := mkStore (licenses s) (activations s ++ [row])).
    assert (Hwf1 : wf_store s1).
    { apply added_activation_wf; [|exact Hwf]. simpl. now apply in_map. }
    intros l' Hl'.
    apply (License_update_stored _ s1 l l' Hwf1 Hl) in Hl'.
    change (activeActivations ?i (License_update _ _ s1))
      with (activeActivations i s1).
    unfold s1. rewrite activeActivations_added.
    replace (mkStore (licenses s) (activations s)) with s by now destruct s.
    cbn [LicenseActivation.licenseId row].
    destruct Hl' as [->|[Hl' Hne]].
    + cbn [License.id License.set_activation License.maxActivations].
      rewrite String.eqb_refl. simpl. lia.
    + simpl in Hl'. specialize (Hcap l' Hl').
      assert (E : (License.id l =? License.id l')%string = false)
        by (apply String.eqb_neq; congruence).
      rewrite E. simpl. lia.
  - intros l' Hl'. cbn [licenses] in Hl'.
    rewrite activeActivations_added.
    replace (mkStore (licenses s) (activations s)) with s by now destruct s.
    cbn [LicenseActivation.licenseId]. specialize (Hcap l' Hl').
    destruct (String.eqb_spec (License.id l) (License.id l')) as [E|E];
      simpl; [|lia].
    assert (l = l')
      by exact (NoDup_map_inj_in _ _ _ _ (wf_ids s Hwf) Hl Hl' E).
    subst l'. lia.
Qed.

Lemma cap_respected_revoke (i : string) (reason : jsval) (now : Z)
    (s : Store) :
  cap_respected s -> cap_respected (fst (revoke i reason now s)).
Proof.
  intros Hcap. unfold revoke.
  destruct (uuid_in i) as [pk|]; [|exact Hcap].
  destruct (License_findByPk pk s) as [l|]; [|exact Hcap]. simpl.
  apply (cap_respected_mapped _ (License_update _ _ s)).
  - apply revokeAll_licenseId.
  - apply revokeAll_is_active.
  - now apply cap_respected_License_update.
Qed.

Lemma cap_respected_generate (body : GenerateBody.t) (env : GenerateEnv)
    (s : Store) :
  wf_store s -> cap_respected s -> cap_respected (fst (generate body env s)).
Proof.
  intros Hwf Hcap.
  destruct (generate_cases body env s) as [(s' & l & E & Hc)|[-> _]];
    [|exact Hcap].
  rewrite E.
  pose proof (activations_of_new_license l s s' Hwf Hc) as Hnone.
  pose proof Hc as Hc'. apply License_create_Some in Hc' as [-> _].
  simpl. intros l' Hl'. apply in_app_iff in Hl' as [Hl'|[<-|[]]].
  - exact (Hcap l' Hl').
  - unfold activeActivations. rewrite Hnone. simpl. lia.
Qed.

(** X1. The quota holds on every store the routes can reach: from a store
    that satisfies the schema's constraints and on which no license has
    more active activations than [maxActivations] (none, when that is
    negative), no sequence of generate, validate and revoke requests leads
    to a license above its quota. *)
Theorem quota_never_exceeded (rs : list Request) (s : Store) :
  wf_store s -> cap_respected s -> cap_respected (serve rs s).
Proof.
  revert s. induction rs as [|r rs IH]; simpl; intros s Hwf Hcap;
    [exact Hcap|].
  apply IH; [now apply handle_wf|].
  destruct r; simpl;
    [now apply cap_respected_generate | now apply cap_respected_validate
     | now apply cap_respected_revoke].
Qed.

Lemma quota_never_exceeded_witness :
  cap_respected
    (serve [ReqGenerate (Scenario.gen_body (Some 1) "1-year")
              Scenario.gen_env;
            ReqValidate (Scenario.val_body (Some "A"))
              (Scenario.val_env Scenario.a1 2000);
            ReqValidate (Scenario.val_body (Some "B"))
              (Scenario.val_env Scenario.a2 3000)] empty_store).
Proof.
  apply quota_never_exceeded.
  - apply empty_store_wf.
  - intros l [].
Defined.









(** The bound on the machine id is needed: a machine id of 255 characters
    followed by a space is stored without the space; the next call with
    the same id does not find the stored row and, the quota allowing,
    activates the machine again. *)
Example two_activations_of_one_machine :
  let s := serve [ReqGenerate (Scenario.gen_body (Some 2) "1-year")
                    Scenario.gen_env;
                  ReqValidate (Scenario.val_body (Some Scenario.spaced_machine))
                    (Scenario.val_env Scenario.a1 2000);
                  ReqValidate (Scenario.val_body (Some Scenario.spaced_machine))
                    (Scenario.val_env Scenario.a2 3000)] empty_store in
  String.length Scenario.spaced_machine = 256%nat
  /\ String.length (as_STRING Scenario.spaced_machine) = 255%nat
  /\ List.map LicenseActivation.machineId (activations s)
     = [as_STRING Scenario.spaced_machine; as_STRING Scenario.spaced_machine]
  /\ List.length (active_for Scenario.license_id
                    (as_STRING Scenario.spaced_machine) s) = 2%nat.
Proof. vm_compute. repeat split. Qed.

(** ** What the routes never do to a stored license *)

Lemma later_state_refl (l : License.t) : later_state l l.
Proof. split; auto. lia. Qed.

Lemma later_state_trans (l1 l2 l3 : License.t) :
  later_state l1 l2 -> later_state l2 l3 -> later_state l1 l3.
Proof.
  intros [] []. split; try congruence; auto. lia.
Qed.

Lemma later_state_License_update (f : License.t -> License.t) (s : Store)
    (l0 l : License.t) :
  later_state l0 (f l0) ->
  wf_store s -> In l0 (licenses s) -> In l (licenses s) ->
  exists l', In l' (licenses (License_update (License.id l0) f s))
             /\ later_state l l'.
Proof.
  intros Hf Hwf Hl0 Hl.
  exists (if (License.id l =? License.id l0)%string then f l else l).
  split; [apply License_update_In; eauto|].
  destruct (String.eqb_spec (License.id l) (License.id l0)) as [E|E].
  - assert (l = l0)
      by exact (NoDup_map_inj_in _ _ _ _ (wf_ids s Hwf) Hl Hl0 E).
    now subst.
  - apply later_state_refl.
Qed.

Lemma later_state_handle (s : Store) (r : Request) (l : License.t) :
  wf_store s -> In l (licenses s) ->
  exists l', In l' (licenses (handle s r)) /\ later_state l l'.
Proof.
  intros Hwf Hl. destruct r as [body env|body env|i reason now]; simpl.
  - exists l. split; [|apply later_state_refl].
    destruct (generate_cases body env s) as [(s' & l1 & E & Hc)|[-> _]];
      [|exact Hl].
    rewrite E. apply License_create_Some in Hc as [-> _]. simpl.
    apply in_app_iff. auto.
  - destruct (validate_effects body env s)
      as [E|[[l0 [Hl0 E]]|[[a [_ E]]
           |[l0 [m (Hl0 & _ & _ & _ & _ & _ & [[_ E]|[_ E]])]]]]];
      rewrite E; clear E.
    + exists l. split; [exact Hl | apply later_state_refl].
    + apply later_state_License_update; auto.
      split; auto; try discriminate. simpl; lia.
    + exists l. split; [exact Hl | apply later_state_refl].
    + apply (later_state_License_update _
               (mkStore (licenses s) _) l0 l); auto.
      * split; auto. simpl; lia.
      * apply added_activation_wf; [|exact Hwf]. simpl. now apply in_map.
    + exists l. split; [exact Hl | apply later_state_refl].
  - unfold revoke. destruct (uuid_in i) as [pk|];
      [|exists l; split; [exact Hl | apply later_state_refl]].
    destruct (License_findByPk pk s) as [l0|] eqn:Hfind.
    + apply License_findByPk_Some in Hfind as [Hl0 _]. simpl.
      apply (later_state_License_update _ s l0 l); auto.
      split; auto; try discriminate. simpl; lia.
    + exists l. split; [exact Hl | apply later_state_refl].
Qed.

Lemma later_state_serve (rs : list Request) (s : Store) (l : License.t) :
  wf_store s -> In l (licenses s) ->
  exists l', License_findByPk (License.id l) (serve rs s) = Some l'
             /\ later_state l l'.
Proof.
  revert s l. induction rs as [|r rs IH]; simpl; intros s l Hwf Hl.
  - exists l. split; [now apply stored_license_byPk|apply later_state_refl].
  - destruct (later_state_handle s r l Hwf Hl) as (l1 & Hl1 & H1).
    destruct (IH (handle s r) l1 (handle_wf s r Hwf) Hl1)
      as (l' & Hfind & H2).
    exists l'. rewrite <- (later_id l l1 H1).
    split; [exact Hfind | now apply later_state_trans with l1].
Qed.

(** X3. A stored license is never deleted and its terms never change: after
    any sequence of generate, validate and revoke requests the store still
    holds, under the same id, a license with the same key, plugin,
    customer, type, [issuedAt], [expiresAt] and [maxActivations]. *)
Theorem license_terms_are_permanent (rs : list Request) (s : Store)
    (l : License.t) :
  wf_store s -> In l (licenses s) ->
  exists l',
    License_findByPk (License.id l) (serve rs s) = Some l'
    /\ License_findOne (License.licenseKey l) (License.pluginId l)
         (serve rs s) = Some l'
    /\ License.licenseKey l' = License.licenseKey l
    /\ License.pluginId l' = License.pluginId l
    /\ License.customerId l' = License.customerId l
    /\ License.customerEmail l' = License.customerEmail l
    /\ License.customerName l' = License.customerName l
    /\ License.licenseType l' = License.licenseType l
    /\ License.issuedAt l' = License.issuedAt l
    /\ License.expiresAt l' = License.expiresAt l
    /\ License.maxActivations l' = License.maxActivations l.
Proof.
  intros Hwf Hl.
  destruct (later_state_serve rs s l Hwf Hl) as (l' & Hfind & H).
  exists l'. destruct H. split; [exact Hfind|]. split.
  - apply License_findByPk_Some in Hfind as [Hl' _].
    rewrite <- later_licenseKey0, <- later_pluginId0.
    apply stored_license_found; [now apply serve_wf | exact Hl'].
  - repeat split; assumption.
Qed.

Lemma license_terms_are_permanent_witness :
  exists l',
    License_findByPk Scenario.license_id Scenario.revoked_store = Some l'
    /\ License_findOne Scenario.key "plugin-a" Scenario.revoked_store
       = Some l'
    /\ License.licenseKey l' = Scenario.key
    /\ License.pluginId l' = "plugin-a"
    /\ License.customerId l' = "5E884898DA280471"
    /\ License.customerEmail l' = "ada@example.com"
    /\ License.customerName l' = "Ada"
    /\ License.licenseType l' = "1-year"
    /\ License.issuedAt l' = 1000
    /\ License.expiresAt l' = 31536001000
    /\ License.maxActivations l' = 1.
Proof.
  apply (license_terms_are_permanent
           [ReqValidate (Scenario.val_body (Some "A"))
              (Scenario.val_env Scenario.a1 2000);
            ReqRevoke Scenario.license_id (JString "chargeback") 5000]
           Scenario.issued Scenario.one_year).
  - apply serve_wf, empty_store_wf.
  - simpl; auto.
Defined.

(** X4. No route reactivates a license or lowers its counter: once the
    stored status of a license is not active (expired, revoked or
    suspended) it is not active after any further sequence of generate,
    validate and revoke requests, and [activationCount] never decreases. *)
Theorem license_never_reactivated (rs : list Request) (s : Store)
    (l : License.t) :
  wf_store s -> In l (licenses s) ->
  exists l',
    License_findByPk (License.id l) (serve rs s) = Some l'
    /\ (License.status l <> active -> License.status l' <> active)
    /\ License.activationCount l <= License.activationCount l'.
Proof.
  intros Hwf Hl.
  destruct (later_state_serve rs s l Hwf Hl) as (l' & Hfind & H).
  exists l'. destruct H. auto.
Qed.

Lemma license_never_reactivated_witness :
  exists l',
    License_findByPk Scenario.license_id
      (serve [ReqValidate (Scenario.val_body (Some "A"))
                (Scenario.val_env Scenario.a2 6000);
              ReqValidate (Scenario.val_body None)
                (Scenario.val_env Scenario.a3 Scenario.past_due)]
         Scenario.revoked_store) = Some l'
    /\ (License.status Scenario.one_year_revoked <> active ->
        License.status l' <> active)
    /\ License.activationCount Scenario.one_year_revoked
       <= License.activationCount l'.
Proof.
  apply (license_never_reactivated
           [ReqValidate (Scenario.val_body (Some "A"))
              (Scenario.val_env Scenario.a2 6000);
            ReqValidate (Scenario.val_body None)
              (Scenario.val_env Scenario.a3 Scenario.past_due)]
           Scenario.revoked_store Scenario.one_year_revoked).
  - apply serve_wf, serve_wf, serve_wf, empty_store_wf.
  - rewrite scenario_revoked. simpl; auto.
Defined.

(** ** More on [validate] *)

(** X5. The expiry check comes first and does not look at the status: for
    every stored license whose [expiresAt] is before the clock, whatever
    its status (active, revoked, suspended or already expired), validate
    stores the status expired on it, answers "License has expired" and
    touches no activation row. *)
Theorem validate_past_due_any_status (s : Store) (l : License.t)
    (m : option string) (env : ValidateEnv) :
  wf_store s -> In l (licenses s) ->
  License.expiresAt l < val_now env ->
  exists s',
    validate (body_for l m) env s = (s', Invalid LicenseHasExpired)
    /\ License_findByPk (License.id l) s'
       = Some (License.set_status expired l)
    /\ activations s' = activations s
    /\ (forall l0, In l0 (licenses s) -> License.id l0 <> License.id l ->
                   In l0 (licenses s')).
Proof.
  intros Hwf Hl Hexp.
  destruct (stored_license_lookup s l Hwf Hl) as (Hk & Hp & Hfind).
  exists (License_update (License.id l) (License.set_status expired) s).
  split; [apply (validate_expired _ _ env s l Hk Hp Hfind m Hexp)|].
  split; [|split; [reflexivity|]].
  - apply (stored_license_byPk _ (License.set_status expired l)).
    + now apply License_update_wf.
    + apply License_update_stored; auto.
  - intros l0 Hl0 Hne. apply License_update_stored; auto.
Qed.

Lemma validate_past_due_any_status_witness :
  exists s',
    validate (body_for Scenario.one_year_revoked (Some "A"))
      (Scenario.val_env Scenario.a2 Scenario.past_due) Scenario.revoked_store
    = (s', Invalid LicenseHasExpired)
    /\ License_findByPk Scenario.license_id s'
       = Some (License.set_status expired Scenario.one_year_revoked)
    /\ activations s' = activations Scenario.revoked_store
    /\ (forall l0, In l0 (licenses Scenario.revoked_store) ->
                   License.id l0 <> Scenario.license_id -> In l0 (licenses s')).
Proof.
  apply (validate_past_due_any_status Scenario.revoked_store
           Scenario.one_year_revoked (Some "A")
           (Scenario.val_env Scenario.a2 Scenario.past_due)).
  - apply serve_wf, serve_wf, serve_wf, empty_store_wf.
  - rewrite scenario_revoked. simpl; auto.
  - vm_compute. reflexivity.
Defined.

Lemma validate_valid_shape (body : ValidateBody.t) (env : ValidateEnv)
    (s s' : Store) (info : ValidInfo.t) :
  validate body env s = (s', Valid info) ->
  exists l l',
    In l (licenses s) /\ presents l body
    /\ License.status l = active
    /\ val_now env <= License.expiresAt l
    /\ (l' = l
        \/ exists m, l' = License.set_activation
                            (License.activationCount l + 1) (val_now env)
                            m l)
    /\ Valid info
       = valid_response l'
           (moment_diff_days (License.expiresAt l) (val_now env)).
Proof.
  unfold validate. destruct body as [[k|] [p|] m]; simpl; try discriminate.
  2: { destruct (negb (negb (k =? "")%string)); discriminate. }
  destruct (negb (negb (k =? "")%string) || negb (negb (p =? "")%string));
    [discriminate|].
  destruct (License_findOne k p s) as [l|] eqn:Hfind; [|discriminate].
  apply License_findOne_Some in Hfind as (Hl & Hk & Hp).
  destruct (Z.ltb_spec (License.expiresAt l) (val_now env)) as [|Hlive];
    [discriminate|].
  destruct (LicenseStatus_eqb (License.status l) active) eqn:Hst;
    [|discriminate].
  assert (Hactive : License.status l = active)
    by (destruct (License.status l); easy).
  assert (Hpres : presents l (ValidateBody.mk (Some k) (Some p) m))
    by (split; simpl; congruence).
  cbn [negb]. destruct (truthy m).
  - destruct (LicenseActivation_findOne _ _ s) as [a|].
    + intros [= <- <-]. exists l, l. auto 10.
    + destruct (_ >=? _); [discriminate|].
      destruct (LicenseActivation_create _ s); [|discriminate].
      destruct (fits_INTEGER _); [|discriminate].
      intros [= <- <-].
      exists l, (License.set_activation (License.activationCount l + 1)
                   (val_now env) (default "" m) l).
      split; [exact Hl|]. split; [exact Hpres|]. split; [exact Hactive|].
      split; [exact Hlive|].
      split; [right; now exists (default "" m) | reflexivity].
  - intros [= <- <-]. exists l, l. auto 10.
Qed.

(** X6. A valid verdict is only given for a stored license that the
    request presents, that is active and not past due; it reports that
    license's id, type, [expiresAt] and [maxActivations], a non-negative
    [daysRemaining], an [activationCount] that is the stored one or one
    more, and warning flags that are nested: each flag implies the flags of
    all larger thresholds. *)
Theorem valid_verdict_sound (body : ValidateBody.t) (env : ValidateEnv)
    (s s' : Store) (info : ValidInfo.t) :
  validate body env s = (s', Valid info) ->
  (exists l,
     In l (licenses s) /\ presents l body
     /\ License.status l = active
     /\ val_now env <= License.expiresAt l
     /\ ValidInfo.licenseId info = License.id l
     /\ ValidInfo.licenseType info = License.licenseType l
     /\ ValidInfo.expiresAt info = License.expiresAt l
     /\ ValidInfo.maxActivations info = License.maxActivations l
     /\ (ValidInfo.activationCount info = License.activationCount l
         \/ ValidInfo.activationCount info = License.activationCount l + 1))
  /\ ValidInfo.status info = active
  /\ 0 <= ValidInfo.daysRemaining info
  /\ (showDailyWarning (ValidInfo.warningThresholds info) = true ->
      show15DayWarning (ValidInfo.warningThresholds info) = true)
  /\ (show15DayWarning (ValidInfo.warningThresholds info) = true ->
      show30DayWarning (ValidInfo.warningThresholds info) = true)
  /\ (show30DayWarning (ValidInfo.warningThresholds info) = true ->
      show45DayWarning (ValidInfo.warningThresholds info) = true)
  /\ (show45DayWarning (ValidInfo.warningThresholds info) = true ->
      show60DayWarning (ValidInfo.warningThresholds info) = true)
  /\ (show60DayWarning (ValidInfo.warningThresholds info) = true ->
      show90DayWarning (ValidInfo.warningThresholds info) = true).
Proof.
  intros Hv.
  apply validate_valid_shape in Hv
    as (l & l' & Hl & Hpres & Hst & Hlive & Hl' & Hinfo).
  injection Hinfo as ->. cbn.
  assert (Hflags : forall d a b : Z, a <= b ->
            (d <=? a) = true -> (d <=? b) = true).
  { intros d a b Hab H. apply Z.leb_le. apply Z.leb_le in H. lia. }
  split; [|split; [|split]].
  - exists l. destruct Hpres as [Hpk Hpp].
    destruct Hl' as [->|[m ->]]; simpl; repeat split; auto.
  - destruct Hl' as [->|[m ->]]; exact Hst.
  - unfold moment_diff_days. apply Z.quot_pos; [lia|reflexivity].
  - repeat split; apply Hflags; lia.
Qed.

Lemma valid_verdict_sound_witness :
  (exists l,
     In l (licenses Scenario.issued)
     /\ presents l (Scenario.val_body (Some "A"))
     /\ License.status l = active
     /\ 2000 <= License.expiresAt l
     /\ Scenario.license_id = License.id l
     /\ "1-year" = License.licenseType l
     /\ 31536001000 = License.expiresAt l
     /\ 1 = License.maxActivations l
     /\ (1 = License.activationCount l
         \/ 1 = License.activationCount l + 1))
  /\ active = active
  /\ 0 <= 364
  /\ (false = true -> false = true)
  /\ (false = true -> false = true)
  /\ (false = true -> false = true)
  /\ (false = true -> false = true)
  /\ (false = true -> false = true).
Proof.
  apply (valid_verdict_sound (Scenario.val_body (Some "A"))
           (Scenario.val_env Scenario.a1 2000) Scenario.issued Scenario.activated
           (ValidInfo.mk Scenario.license_id active "1-year" 31536001000 364 1 1
              (mkWarningThresholds false false false false false false))).
  reflexivity.
Defined.

(** X7. A license key is bound to its plugin: for a stored license, a
    validate call that presents its key with any other (non-empty) plugin
    id is answered "License not found" and changes nothing, exactly as for
    an unknown key. *)
Theorem validate_key_bound_to_plugin (s : Store) (l : License.t)
    (p : string) (m : option string) (env : ValidateEnv) :
  wf_store s -> In l (licenses s) ->
  p <> "" -> p <> License.pluginId l ->
  validate (ValidateBody.mk (Some (License.licenseKey l)) (Some p) m) env s
  = (s, Invalid LicenseNotFound)
  /\ message LicenseNotFound = "License not found".
Proof.
  intros Hwf Hl Hp Hne. split; [|reflexivity].
  destruct (wf_nonempty s Hwf l Hl) as [Hk _].
  unfold validate.
  cbn [ValidateBody.licenseKey ValidateBody.pluginId].
  rewrite (proj2 (truthy_Some _) Hk), (proj2 (truthy_Some _) Hp).
  cbn [negb orb from_option]. unfold id.
  replace (License_findOne (License.licenseKey l) p s) with (@None License.t);
    [reflexivity|].
  symmetry. unfold License_findOne. apply find_none_iff. intros y Hy.
  destruct (String.eqb_spec (License.licenseKey y) (License.licenseKey l))
    as [E|E]; [|reflexivity].
  assert (y = l)
    by exact (NoDup_map_inj_in _ _ _ _ (wf_keys s Hwf) Hy Hl E).
  subst y. simpl. now apply String.eqb_neq.
Qed.

Lemma validate_key_bound_to_plugin_witness :
  validate (ValidateBody.mk (Some Scenario.key) (Some "plugin-b") (Some "A"))
    (Scenario.val_env Scenario.a1 2000) Scenario.issued
  = (Scenario.issued, Invalid LicenseNotFound)
  /\ message LicenseNotFound = "License not found".
Proof.
  apply (validate_key_bound_to_plugin Scenario.issued Scenario.one_year
           "plugin-b" (Some "A") (Scenario.val_env Scenario.a1 2000)).
  - apply serve_wf, empty_store_wf.
  - simpl; auto.
  - discriminate.
  - discriminate.
Defined.

(** X8. Requests that validate refuses before or at the lookup: when the
    license key or the plugin id is missing or empty the answer is "License
    key and plugin ID are required", and when no stored license has the
    key and plugin id presented the answer is "License not found"; in both
    cases the store is returned as it was, whatever the machine id. *)
Theorem validate_refuses_unknown (k p m : option string)
    (env : ValidateEnv) (s : Store) :
  (truthy k = false \/ truthy p = false ->
   validate (ValidateBody.mk k p m) env s = (s, Invalid KeyAndPluginRequired))
  /\ (truthy k = true -> truthy p = true ->
      (forall l, In l (licenses s) ->
                 Some (License.licenseKey l) <> k
                 \/ Some (License.pluginId l) <> p) ->
      validate (ValidateBody.mk k p m) env s = (s, Invalid LicenseNotFound)).
Proof.
  unfold validate. cbn [ValidateBody.licenseKey ValidateBody.pluginId].
  split.
  - intros [-> | ->]; [reflexivity|]. now rewrite orb_true_r.
  - intros Hk Hp Hnone. rewrite Hk, Hp. cbn [negb orb].
    destruct k as [k|]; [|discriminate]. destruct p as [p|]; [|discriminate].
    replace (License_findOne (default "" (Some k)) (default "" (Some p)) s)
      with (@None License.t); [reflexivity|].
    symmetry. unfold License_findOne. apply find_none_iff. intros y Hy.
    simpl.
    destruct (String.eqb_spec (License.licenseKey y) k) as [Ek|];
      [|reflexivity].
    destruct (String.eqb_spec (License.pluginId y) p) as [Ep|];
      [|reflexivity].
    destruct (Hnone y Hy); congruence.
Qed.

Lemma validate_refuses_unknown_witness :
  validate (ValidateBody.mk None (Some "plugin-a") (Some "A"))
    (Scenario.val_env Scenario.a1 2000) Scenario.issued
  = (Scenario.issued, Invalid KeyAndPluginRequired)
  /\ validate (ValidateBody.mk (Some "CB-0000") (Some "plugin-a") (Some "A"))
       (Scenario.val_env Scenario.a1 2000) Scenario.issued
     = (Scenario.issued, Invalid LicenseNotFound).
Proof.
  split.
  - apply (proj1 (validate_refuses_unknown None (Some "plugin-a") (Some "A")
                    (Scenario.val_env Scenario.a1 2000) Scenario.issued)).
    now left.
  - apply (proj2 (validate_refuses_unknown (Some "CB-0000")
                    (Some "plugin-a") (Some "A")
                    (Scenario.val_env Scenario.a1 2000) Scenario.issued));
      try reflexivity.
    intros l [<-|[]]. left. discriminate.
Defined.

(** ** More on [generate] *)

Lemma LICENSE_VALIDITY_DAYS_Some (lt : string) :
  (lt =? "perpetual")%string = false ->
  In lt ["1-year"; "3-year"; "5-year"; "perpetual"] ->
  exists days, LICENSE_VALIDITY_DAYS lt = Some days /\ 0 < days.
Proof.
  intros Hp [<-|[<-|[<-|[<-|[]]]]]; try discriminate;
    eexists; (split; [reflexivity | reflexivity]).
Qed.

Lemma LICENSE_VALIDITY_DAYS_In (lt : string) (days : Z) :
  LICENSE_VALIDITY_DAYS lt = Some days ->
  In lt ["1-year"; "3-year"; "5-year"; "perpetual"].
Proof.
  unfold LICENSE_VALIDITY_DAYS.
  destruct (String.eqb_spec lt "1-year"); [subst; simpl; auto|].
  destruct (String.eqb_spec lt "3-year"); [subst; simpl; auto|].
  destruct (String.eqb_spec lt "5-year"); [subst; simpl; auto|].
  discriminate.
Qed.




Example generate_five_year :
  generate (Scenario.gen_body None "5-year") Scenario.gen_env empty_store
  = (mkStore [Scenario.issued_license 1 "5-year" 157680001000] [],
     GenerateOk (Scenario.issued_license 1 "5-year" 157680001000)).
Proof. reflexivity. Qed.



(** The inherited names and the long strings on the generate route. *)
Example generate_column_failures :
  get_member LICENSE_VALIDITY_DAYS "constructor" = Some Inherited
  /\ get_member LICENSE_VALIDITY_DAYS "__proto__" = Some Inherited
  /\ get_member LICENSE_VALIDITY_DAYS "3-year" = Some (OwnNumber 1095)
  /\ get_member LICENSE_VALIDITY_DAYS "2-year" = None
  /\ generate (Scenario.gen_body None "toString") Scenario.gen_env
       Scenario.issued
     = (Scenario.issued, GenerateFailed)
  /\ generate (GenerateBody.mk (Some "plugin-a")
                 (Some Scenario.long_machine) (Some "ada@example.com")
                 (Some "1-year") None)
       Scenario.gen_env empty_store
     = (empty_store, GenerateFailed)
  /\ generate (Scenario.gen_body (Some (-2147483649)) "perpetual")
       Scenario.gen_env empty_store
     = (empty_store, GenerateFailed).
Proof. repeat split. Qed.



(** ** More on [revoke] *)



Example revoke_twice :
  revoke Scenario.license_id (JString "refund") 7000 Scenario.revoked_store
  = (mkStore
       [License.set_status_metadata revoked
          (revocation_metadata ∅ (JString "refund") 7000)
          Scenario.one_year_activated]
       [LicenseActivation.set_status act_revoked Scenario.activation_A],
     RevokeOk).
Proof. vm_compute. reflexivity. Qed.

(** * The key generator *)

Lemma toUpperCase_ascii_idem (c : ascii) :
  toUpperCase_ascii (toUpperCase_ascii c) = toUpperCase_ascii c.
Proof. destruct c as [[] [] [] [] [] [] [] []]; reflexivity. Qed.

Lemma toUpperCase_idem (s : string) :
  toUpperCase (toUpperCase s) = toUpperCase s.
Proof.
  induction s as [|c s IH]; simpl; [reflexivity|].
  now rewrite toUpperCase_ascii_idem, IH.
Qed.

Lemma substring_0_length (n : nat) (s : string) :
  (n <= String.length s)%nat ->
  String.length (String.substring 0 n s) = n.
Proof.
  revert s. induction n as [|n IH]; intros s Hn.
  - now destruct s.
  - destruct s as [|c s]; simpl in *; [lia|]. rewrite IH; [reflexivity|lia].
Qed.

Ltac peel_char H :=
  match type of H with
  | String.length ?s = S _ =>
      destruct s; [discriminate H | simpl in H; apply Nat.succ_inj in H]
  end.

(** X13. The shape of a license key: for a digest of at least 20
    characters (a SHA-256 hex digest has 64), the key is "CB-" followed by
    five groups of four characters separated by hyphens, 27 characters in
    all; the groups put together are the first 20 characters of the digest
    in upper case, and the key is its own upper case. *)
Theorem generateLicenseKey_shape (hash : string) :
  (20 <= String.length hash)%nat ->
  exists g1 g2 g3 g4 g5 : string,
    generateLicenseKey hash
    = ("CB-" ++ g1 ++ "-" ++ g2 ++ "-" ++ g3 ++ "-" ++ g4 ++ "-" ++ g5)%string
    /\ String.length g1 = 4%nat /\ String.length g2 = 4%nat
    /\ String.length g3 = 4%nat /\ String.length g4 = 4%nat
    /\ String.length g5 = 4%nat
    /\ (g1 ++ g2 ++ g3 ++ g4 ++ g5)%string
       = toUpperCase (String.substring 0 20 hash)
    /\ String.length (generateLicenseKey hash) = 27%nat
    /\ toUpperCase (generateLicenseKey hash) = generateLicenseKey hash.
Proof.
  intros Hlen. unfold generateLicenseKey.
  pose proof (toUpperCase_idem (String.substring 0 20 hash)) as Hup.
  pose proof (toUpperCase_length (String.substring 0 20 hash)) as Hk.
  rewrite (substring_0_length 20 hash Hlen) in Hk.
  set (key := toUpperCase (String.substring 0 20 hash)) in *.
  clearbody key. clear Hlen hash.
  do 20 peel_char Hk. destruct key; [|discriminate Hk]. clear Hk.
  simpl in Hup.
  injection Hup as H1 H2 H3 H4 H5 H6 H7 H8 H9 H10 H11 H12 H13 H14 H15 H16
    H17 H18 H19 H20.
  exists (String a (String a0 (String a1 (String a2 EmptyString)))),
    (String a3 (String a4 (String a5 (String a6 EmptyString)))),
    (String a7 (String a8 (String a9 (String a10 EmptyString)))),
    (String a11 (String a12 (String a13 (String a14 EmptyString)))),
    (String a15 (String a16 (String a17 (String a18 EmptyString)))).
  repeat split; try reflexivity.
  simpl.
  change (toUpperCase_ascii "C") with "C"%char.
  change (toUpperCase_ascii "B") with "B"%char.
  change (toUpperCase_ascii "-") with "-"%char.
  rewrite H1, H2, H3, H4, H5, H6, H7, H8, H9, H10, H11, H12, H13, H14, H15,
    H16, H17, H18, H19, H20.
  reflexivity.
Qed.

Lemma generateLicenseKey_shape_witness :
  exists g1 g2 g3 g4 g5 : string,
    generateLicenseKey (gen_keyHash Scenario.gen_env)
    = ("CB-" ++ g1 ++ "-" ++ g2 ++ "-" ++ g3 ++ "-" ++ g4 ++ "-" ++ g5)%string
    /\ String.length g1 = 4%nat /\ String.length g2 = 4%nat
    /\ String.length g3 = 4%nat /\ String.length g4 = 4%nat
    /\ String.length g5 = 4%nat
    /\ (g1 ++ g2 ++ g3 ++ g4 ++ g5)%string
       = toUpperCase (String.substring 0 20 (gen_keyHash Scenario.gen_env))
    /\ String.length (generateLicenseKey (gen_keyHash Scenario.gen_env))
       = 27%nat
    /\ toUpperCase (generateLicenseKey (gen_keyHash Scenario.gen_env))
       = generateLicenseKey (gen_keyHash Scenario.gen_env).
Proof.
  apply (generateLicenseKey_shape (gen_keyHash Scenario.gen_env)).
  simpl. lia.
Defined.

(** * The expiring-licenses route *)




Example expiring_scenario :
  expiring None (31536001000 - 30 * MS_PER_DAY) Scenario.activated
  = ExpiringOk [(Scenario.one_year_activated, [Scenario.activation_A])]
  /\ expiring None (31536001000 - 30 * MS_PER_DAY - 1) Scenario.activated
     = ExpiringOk []
  /\ expiring (Some 366) 2000 Scenario.revoked_store = ExpiringOk []
  /\ expiring (Some 100000000) 2000 Scenario.activated = ExpiringFailed
  /\ expiring (Some (-1000000)) 2000 Scenario.activated = ExpiringFailed.
Proof. repeat split. Qed.



(** * The daily expiration scan *)

(** [e] lies between the start and the end of the day of [t] exactly when
    both fall on the same calendar day. *)
Lemma same_day_window (t e : Z) :
  startOf_day t <= e <= endOf_day t <-> e / MS_PER_DAY = t / MS_PER_DAY.
Proof.
  unfold endOf_day, startOf_day.
  pose proof (Z.div_mod e MS_PER_DAY) as He.
  pose proof (Z.mod_pos_bound e MS_PER_DAY) as Hbe.
  unfold MS_PER_DAY in *. split.
  - intros [H1 H2]. symmetry. apply (Z.div_unique _ _ _ (e - t / 86400000 * 86400000)); lia.
  - intros Heq. rewrite <- Heq. lia.
Qed.

Lemma expiring_on_In (days now : Z) (s : Store) (l : License.t) :
  In l (expiring_on days now s) <->
  In l (licenses s) /\ License.status l = active
  /\ License.expiresAt l / MS_PER_DAY = now / MS_PER_DAY + days.
Proof.
  unfold expiring_on. rewrite filter_In.
  assert (Hday : (moment_add_days now days) / MS_PER_DAY
                 = now / MS_PER_DAY + days).
  { unfold moment_add_days. apply Z.div_add. discriminate. }
  rewrite <- Hday, <- same_day_window. split.
  - intros [Hin Hb]. apply andb_prop in Hb as [Hb H3].
    apply andb_prop in Hb as [H1 H2].
    apply Z.leb_le in H2. apply Z.leb_le in H3.
    repeat split; auto. now destruct (License.status l).
  - intros (Hin & Hst & [H1 H2]). split; [exact Hin|].
    rewrite Hst. apply Z.leb_le in H1. apply Z.leb_le in H2.
    now rewrite H1, H2.
Qed.

Lemma checkExpiringLicenses_In (now : Z) (s : Store) (n : ExpiryNotice) :
  In n (checkExpiringLicenses now s) <->
  exists l,
    In l (licenses s) /\ License.status l = active
    /\ In (notice_days n) EXPIRY_THRESHOLDS
    /\ License.expiresAt l / MS_PER_DAY = now / MS_PER_DAY + notice_days n
    /\ License.id l = notice_licenseId n
    /\ License.pluginId l = notice_pluginId n
    /\ License.customerEmail l = notice_customerEmail n
    /\ License.expiresAt l = notice_expiresAt n.
Proof.
  unfold checkExpiringLicenses. rewrite in_flat_map. split.
  - intros (d & Hd & Hn). apply in_map_iff in Hn as (l & <- & Hl).
    apply expiring_on_In in Hl as (Hl & Hst & Hday).
    exists l. simpl. auto 10.
  - intros (l & Hl & Hst & Hd & Hday & H1 & H2 & H3 & H4).
    destruct n as [d i p e x]. simpl in *. subst i p e x.
    exists d. split; [exact Hd|].
    apply (in_map (fun l => mkExpiryNotice d (License.id l)
                              (License.pluginId l) (License.customerEmail l)
                              (License.expiresAt l))).
    apply expiring_on_In. auto.
Qed.

(** X16. Which lines one run of the expiration scan logs: a license is
    reported for the threshold [d] exactly when it is active, [d] is one of
    90, 60, 45, 30, 15, 7, 3 and 1, and its expiry falls on the calendar
    day that is [d] days after today, whatever the time of day of the run
    and of the expiry; the line carries the id, plugin id, customer email
    and [expiresAt] of that license. *)
Theorem checkExpiringLicenses_reports (now : Z) (s : Store)
    (n : ExpiryNotice) :
  In n (checkExpiringLicenses now s) <->
  exists l,
    In l (licenses s) /\ License.status l = active
    /\ In (notice_days n) EXPIRY_THRESHOLDS
    /\ License.expiresAt l / MS_PER_DAY = now / MS_PER_DAY + notice_days n
    /\ License.id l = notice_licenseId n
    /\ License.pluginId l = notice_pluginId n
    /\ License.customerEmail l = notice_customerEmail n
    /\ License.expiresAt l = notice_expiresAt n.
Proof. apply checkExpiringLicenses_In. Qed.

Example checkExpiringLicenses_scenario :
  checkExpiringLicenses (31536001000 - 7 * MS_PER_DAY + 3600000)
    Scenario.activated
  = [mkExpiryNotice 7 Scenario.license_id "plugin-a" "ada@example.com" 31536001000]
  /\ checkExpiringLicenses (31536001000 - 8 * MS_PER_DAY) Scenario.activated
     = []
  /\ checkExpiringLicenses (31536001000 - 7 * MS_PER_DAY)
       Scenario.revoked_store = [].
Proof. repeat split. Qed.

Lemma NoDup_map_filter {A B : Type} (key : A -> B) (f : A -> bool)
    (l : list A) :
  List.NoDup (List.map key l) ->
  List.NoDup (List.map key (List.filter f l)).
Proof.
  induction l as [|x l IH]; simpl; intros Hnd; [constructor|].
  inversion Hnd as [|? ? Hx Hnd']; subst. destruct (f x); simpl; auto.
  constructor; auto. rewrite in_map_iff. intros (y & Hy & Hin).
  apply filter_In in Hin as [Hin _]. apply Hx. rewrite <- Hy.
  now apply in_map.
Qed.

Lemma NoDup_flat_map_keys {A B K : Type} (key : B -> K) (g : A -> list B)
    (ds : list A) :
  List.NoDup ds ->
  (forall d, In d ds -> List.NoDup (List.map key (g d))) ->
  (forall d1 d2 b1 b2, In d1 ds -> In d2 ds -> In b1 (g d1) ->
     In b2 (g d2) -> key b1 = key b2 -> d1 = d2) ->
  List.NoDup (List.map key (List.flat_map g ds)).
Proof.
  induction ds as [|d ds IH]; simpl; intros Hds Hin Hdisj; [constructor|].
  inversion Hds as [|? ? Hd Hds']; subst.
  rewrite List.map_app. apply List.NoDup_app.
  - apply Hin. auto.
  - apply IH; auto. intros. apply (Hdisj d1 d2 b1 b2); auto.
  - intros k Hk1 Hk2.
    apply in_map_iff in Hk1 as (b1 & <- & Hb1).
    apply in_map_iff in Hk2 as (b2 & Hk & Hb2).
    apply in_flat_map in Hb2 as (d2 & Hd2 & Hb2).
    assert (d = d2) by (apply (Hdisj d d2 b1 b2); auto).
    subst. contradiction.
Qed.

(** X17. One run of the scan reports a license at most once: on a store
    with unique license ids, no two logged lines carry the same license
    id, because the calendar day of the expiry selects at most one
    threshold. *)
Theorem checkExpiringLicenses_once_per_license (now : Z) (s : Store) :
  wf_store s ->
  List.NoDup (List.map notice_licenseId (checkExpiringLicenses now s)).
Proof.
  intros Hwf. unfold checkExpiringLicenses. apply NoDup_flat_map_keys.
  - unfold EXPIRY_THRESHOLDS. repeat constructor; simpl; lia.
  - intros d _. rewrite List.map_map. simpl.
    unfold expiring_on. apply NoDup_map_filter. apply (wf_ids s Hwf).
  - intros d1 d2 n1 n2 _ _ H1 H2 Hkey.
    apply in_map_iff in H1 as (l1 & <- & Hl1).
    apply in_map_iff in H2 as (l2 & <- & Hl2). simpl in Hkey.
    apply expiring_on_In in Hl1 as (Hin1 & _ & Hday1).
    apply expiring_on_In in Hl2 as (Hin2 & _ & Hday2).
    assert (l1 = l2)
      by exact (NoDup_map_inj_in _ _ _ _ (wf_ids s Hwf) Hin1 Hin2 Hkey).
    subst. lia.
Qed.

Lemma checkExpiringLicenses_once_per_license_witness :
  List.NoDup
    (List.map notice_licenseId
       (checkExpiringLicenses (31536001000 - 7 * MS_PER_DAY)
          Scenario.activated)).
Proof.
  apply checkExpiringLicenses_once_per_license.
  apply serve_wf, serve_wf, empty_store_wf.
Defined.

(** X18. The scan and validate agree on the day count: when a run of the
    scan reports a license for the threshold [d], a validate call without
    machine id at the same clock value is answered valid for that license,
    with [daysRemaining] equal to [d] or to [d - 1] (the scan counts
    calendar days, validate counts whole 24-hour periods). *)
Theorem checkExpiringLicenses_agrees_with_validate (now : Z) (s : Store)
    (n : ExpiryNotice) (env : ValidateEnv) :
  wf_store s -> val_now env = now ->
  In n (checkExpiringLicenses now s) ->
  exists l info,
    In l (licenses s) /\ License.id l = notice_licenseId n
    /\ validate (body_for l None) env s = (s, Valid info)
    /\ (ValidInfo.daysRemaining info = notice_days n
        \/ ValidInfo.daysRemaining info = notice_days n - 1).
Proof.
  intros Hwf Hnow Hn.
  apply checkExpiringLicenses_In in Hn
    as (l & Hl & Hst & Hd & Hday & Hid & _).
  destruct (stored_license_lookup s l Hwf Hl) as (Hk & Hp & Hfind).
  pose proof (Z.div_mod (License.expiresAt l) MS_PER_DAY) as He.
  pose proof (Z.mod_pos_bound (License.expiresAt l) MS_PER_DAY) as Hbe.
  pose proof (Z.div_mod now MS_PER_DAY) as Hn'.
  pose proof (Z.mod_pos_bound now MS_PER_DAY) as Hbn.
  assert (Hd1 : 1 <= notice_days n).
  { unfold EXPIRY_THRESHOLDS in Hd. simpl in Hd.
    repeat (destruct Hd as [<-|Hd]; [lia|]). destruct Hd. }
  unfold MS_PER_DAY in *.
  assert (Hlive : val_now env <= License.expiresAt l) by nia.
  exists l. eexists. split; [exact Hl|]. split; [exact Hid|]. split.
  - apply (validate_status_only _ _ env s l Hk Hp Hfind Hlive Hst None).
    reflexivity.
  - cbn. unfold moment_diff_days, MS_PER_DAY.
    rewrite Z.quot_div_nonneg by lia. rewrite Hnow.
    set (q := (License.expiresAt l - now) / 86400000).
    pose proof (Z.div_mod (License.expiresAt l - now) 86400000) as Hq.
    pose proof (Z.mod_pos_bound (License.expiresAt l - now) 86400000) as Hbq.
    fold q in Hq. nia.
Qed.

Lemma checkExpiringLicenses_agrees_with_validate_witness :
  exists l info,
    In l (licenses Scenario.activated) /\ License.id l = Scenario.license_id
    /\ validate (body_for l None)
         (Scenario.val_env Scenario.a2 (31536001000 - 7 * MS_PER_DAY + 3600000))
         Scenario.activated
       = (Scenario.activated, Valid info)
    /\ (ValidInfo.daysRemaining info = 7
        \/ ValidInfo.daysRemaining info = 7 - 1).
Proof.
  apply (checkExpiringLicenses_agrees_with_validate
           (31536001000 - 7 * MS_PER_DAY + 3600000) Scenario.activated
           (mkExpiryNotice 7 Scenario.license_id "plugin-a" "ada@example.com" 31536001000)
           (Scenario.val_env Scenario.a2 (31536001000 - 7 * MS_PER_DAY + 3600000))).
  - apply serve_wf, serve_wf, empty_store_wf.
  - reflexivity.
  - simpl. auto.
Defined.

(** * Plugin synchronisation *)


Lemma Plugin_findByPk_None (i : string) (plugins : list Plugin.t) :
  Plugin_findByPk i plugins = None <->
  ~ In i (List.map Plugin.id plugins).
Proof.
  unfold Plugin_findByPk. rewrite find_none_iff, in_map_iff. split.
  - intros H (p & Hid & Hp). specialize (H p Hp).
    rewrite Hid, String.eqb_refl in H. discriminate.
  - intros H p Hp. apply String.eqb_neq. intros Hid. apply H. eauto.
Qed.










(** What [syncable] asks of a core plugin, field by field. *)
Lemma syncable_spec (c : CorePlugin.t) :
  syncable c = true <->
  exists i,
    CorePlugin.id c = Some i
    /\ fits_STRING i = true
    /\ fits_STRING (js_or (CorePlugin.name c) i) = true
    /\ fits_STRING (js_or (CorePlugin.version c) "1.0.0") = true
    /\ fits_STRING (js_or (CorePlugin.author c) "Unknown") = true
    /\ fits_STRING (js_or (CorePlugin.category c) "other") = true
    /\ Forall (fun tag => fits_STRING tag = true)
          (default [] (CorePlugin.tags c))
    /\ In (js_or (CorePlugin.healthStatus c) "unreachable")
          ["healthy"; "unhealthy"; "unreachable"].
Proof.
  unfold syncable.
  destruct (CorePlugin.id c) as [i|];
    [|split; [discriminate | intros (i & Hi & _); discriminate]].
  unfold Plugin_storable, pluginData.
  cbn [Plugin.id Plugin.name Plugin.version Plugin.author Plugin.category
       Plugin.tags Plugin.healthStatus fits_nullable].
  rewrite !andb_true_iff, forallb_forall, <- List.Forall_forall.
  unfold healthStatus_ok. rewrite !orb_true_iff, !String.eqb_eq.
  split.
  - intros H. exists i. simpl. intuition.
  - intros (i' & [= <-] & H). simpl in H. intuition congruence.
Qed.

Lemma sync_plugins_unsyncable (c : CorePlugin.t) (rest : list CorePlugin.t)
    (now : Z) (plugins : list Plugin.t) (sy up : Z) :
  syncable c = false ->
  sync_plugins (c :: rest) now plugins sy up = (plugins, None).
Proof.
  unfold syncable. cbn [sync_plugins].
  destruct (CorePlugin.id c) as [i|]; [|reflexivity].
  intros Hbad.
  assert (Hfits : Plugin_storable (pluginData c i now) = false)
    by exact Hbad.
  destruct (Plugin_findByPk i plugins); [now rewrite Hfits|].
  unfold Plugin_create. now rewrite Hfits.
Qed.





Lemma core_ids_In (core : list CorePlugin.t) (i : string) :
  In i (core_ids core) <-> exists c, In c core /\ CorePlugin.id c = Some i.
Proof.
  unfold core_ids. rewrite in_flat_map. split.
  - intros (c & Hc & Hi). exists c. split; [exact Hc|].
    destruct (CorePlugin.id c) as [i'|]; [|destruct Hi].
    destruct Hi as [->|[]]. reflexivity.
  - intros (c & Hc & Hi). exists c. split; [exact Hc|].
    rewrite Hi. simpl; auto.
Qed.







(** The loop over a list is the loop over its first part, then, if that
    ran to its end, over the rest. *)
Lemma sync_plugins_app (good more : list CorePlugin.t) (now : Z) :
  forall (plugins : list Plugin.t) (sy up : Z),
  sync_plugins (good ++ more) now plugins sy up
  = match sync_plugins good now plugins sy up with
    | (plugins1, Some (sy1, up1)) => sync_plugins more now plugins1 sy1 up1
    | (plugins1, None) => (plugins1, None)
    end.
Proof.
  induction good as [|c rest IH]; intros plugins sy up; [reflexivity|].
  rewrite <- List.app_comm_cons. cbn [sync_plugins].
  destruct (CorePlugin.id c) as [i|]; [|reflexivity].
  destruct (Plugin_findByPk i plugins) as [p|].
  - destruct (Plugin_storable (pluginData c i now)); [apply IH|reflexivity].
  - destruct (Plugin_create (pluginData c i now) plugins);
      [apply IH|reflexivity].
Qed.



(** An id of 255 characters and a space can be written, and is stored
    without the space: the sync that finds the shorter id in the table
    fails on the primary key, and so does a second sync of the same
    plugin. *)
Example sync_long_id :
  syncable Fleet.spaced = true
  /\ sync (CorePlugins [Fleet.spaced]) 9000 []
     = ([Plugin_stored (pluginData Fleet.spaced Fleet.spaced_id 9000)],
        SyncOk 1 0 1)
  /\ Plugin.id (Plugin_stored (pluginData Fleet.spaced Fleet.spaced_id 9000))
     = String.substring 0 255 Fleet.spaced_id
  /\ Plugin_findByPk Fleet.spaced_id
       (fst (sync (CorePlugins [Fleet.spaced]) 9000 []))
     = None
  /\ sync (CorePlugins [Fleet.spaced]) 9500
       (fst (sync (CorePlugins [Fleet.spaced]) 9000 []))
     = (fst (sync (CorePlugins [Fleet.spaced]) 9000 []), SyncFailed).
Proof. vm_compute. repeat split. Qed.

(** X20. A sync does not roll back: when the core plugins before the first
    one that cannot be written can all be written, the sync answers with a
    failure and leaves the table exactly as a sync of those first plugins
    alone would; the ones after it are not looked at. When the core system
    gives no plugin array, or cannot be reached, the table is untouched. *)
Theorem sync_stops_without_rollback (good rest : list CorePlugin.t)
    (bad : CorePlugin.t) (now : Z) (plugins : list Plugin.t) :
  Forall (fun c => syncable c = true) good ->
  syncable bad = false ->
  sync (CorePlugins (good ++ bad :: rest)) now plugins
  = (fst (sync (CorePlugins good) now plugins), SyncFailed)
  /\ sync CoreInvalid now plugins = (plugins, SyncInvalidResponse)
  /\ sync CoreUnreachable now plugins = (plugins, SyncFailed).
Proof.
  intros Hgood Hbad. split; [|split; reflexivity].
  unfold sync. rewrite (sync_plugins_app good (bad :: rest) now).
  destruct (sync_plugins good now plugins 0 0) as [ps1 [[sy1 up1]|]];
    [|reflexivity].
  now rewrite (sync_plugins_unsyncable bad rest now ps1 _ _ Hbad).
Qed.

Lemma sync_stops_without_rollback_witness :
  sync (CorePlugins ([Fleet.analytics] ++ Fleet.broken :: [Fleet.mailer]))
    9000 [Fleet.stored_mailer]
  = (fst (sync (CorePlugins [Fleet.analytics]) 9000 [Fleet.stored_mailer]),
     SyncFailed)
  /\ sync CoreInvalid 9000 [Fleet.stored_mailer]
     = ([Fleet.stored_mailer], SyncInvalidResponse)
  /\ sync CoreUnreachable 9000 [Fleet.stored_mailer]
     = ([Fleet.stored_mailer], SyncFailed).
Proof.
  apply (sync_stops_without_rollback [Fleet.analytics] [Fleet.mailer]
           Fleet.broken 9000 [Fleet.stored_mailer]).
  - repeat constructor.
  - reflexivity.
Defined.

Example sync_scenario :
  sync (CorePlugins [Fleet.analytics; Fleet.broken; Fleet.mailer]) 9000
    [Fleet.stored_mailer]
  = ([Fleet.stored_mailer; pluginData Fleet.analytics "analytics" 9000],
     SyncFailed)
  /\ pluginData Fleet.mailer "mailer" 9000
     = Plugin.mk "mailer" "mailer" (Some "") (Some "1.0.0") (Some "Unknown")
         (Some "other") [] plugin_discovered (Some "unreachable")
         (Some 9000).
Proof. split; reflexivity. Qed.





(** ** The customer id *)

(** X23. The shape of a customer id: for a digest of at least 16
    characters (a SHA-256 hex digest has 64) it has exactly 16 characters
    and is its own upper case. *)
Theorem generateCustomerId_shape (hash : string) :
  (16 <= String.length hash)%nat ->
  String.length (generateCustomerId hash) = 16%nat
  /\ toUpperCase (generateCustomerId hash) = generateCustomerId hash.
Proof.
  intros Hlen. unfold generateCustomerId. split.
  - rewrite toUpperCase_length. now apply substring_0_length.
  - apply toUpperCase_idem.
Qed.

Lemma generateCustomerId_shape_witness :
  String.length (generateCustomerId (gen_emailHash Scenario.gen_env))
  = 16%nat
  /\ toUpperCase (generateCustomerId (gen_emailHash Scenario.gen_env))
     = generateCustomerId (gen_emailHash Scenario.gen_env).
Proof.
  apply (generateCustomerId_shape (gen_emailHash Scenario.gen_env)).
  simpl. lia.
Defined.

(** * Requests on one license leave the others alone *)

Lemma activation_ids_unique_handle (s : Store) (r : Request) :
  activation_ids_unique s -> activation_ids_unique (handle s r).
Proof.
  unfold activation_ids_unique. intros Hnd.
  destruct r as [body env|body env|i reason now]; simpl.
  - destruct (generate_cases body env s) as [(s' & l & E & Hc)|[-> _]];
      [|exact Hnd].
    rewrite E. apply License_create_Some in Hc as [-> _]. exact Hnd.
  - destruct (validate_effects body env s)
      as [E|[[l [_ E]]|[[a [_ E]]
           |[l [m (_ & _ & _ & _ & Hfresh & _ & [[_ E]|[_ E]])]]]]];
      rewrite E; clear E; simpl.
    + exact Hnd.
    + exact Hnd.
    + rewrite map_proj_update; [exact Hnd|]. intros x.
      now destruct (_ =? _)%string.
    + rewrite List.map_app. apply NoDup_snoc; [exact Hnd|].
      simpl. rewrite in_map_iff. intros (a & Ha & Hin).
      now apply Hfresh in Hin.
    + rewrite List.map_app. apply NoDup_snoc; [exact Hnd|].
      simpl. rewrite in_map_iff. intros (a & Ha & Hin).
      now apply Hfresh in Hin.
  - unfold revoke. destruct (uuid_in i) as [pk|]; [|exact Hnd].
    destruct (License_findByPk pk s); [|exact Hnd]. simpl.
    rewrite map_proj_update; [exact Hnd|]. intros a. now destruct (_ && _).
Qed.

(** X24. Activation ids stay unique: from a store whose activation rows
    have pairwise different ids, every sequence of generate, validate and
    revoke requests leads to such a store (a validate call whose new UUID
    is already taken fails and writes nothing). *)
Theorem activation_ids_stay_unique (rs : list Request) (s : Store) :
  activation_ids_unique s -> activation_ids_unique (serve rs s).
Proof.
  revert s. induction rs as [|r rs IH]; simpl; intros s Hnd; [exact Hnd|].
  apply IH. now apply activation_ids_unique_handle.
Qed.

Lemma activation_ids_stay_unique_witness :
  activation_ids_unique
    (serve [ReqGenerate (Scenario.gen_body (Some 2) "1-year")
              Scenario.gen_env;
            ReqValidate (Scenario.val_body (Some "A"))
              (Scenario.val_env Scenario.a1 2000);
            ReqValidate (Scenario.val_body (Some "B"))
              (Scenario.val_env Scenario.a1 3000)] empty_store).
Proof.
  apply activation_ids_stay_unique. constructor.
Defined.

Lemma activations_of_untouched
    (g : LicenseActivation.t -> LicenseActivation.t) (i : string)
    (ls ls' : list License.t) (acts : list LicenseActivation.t) :
  (forall a, In a acts -> LicenseActivation.licenseId a = i -> g a = a) ->
  (forall a, LicenseActivation.licenseId (g a)
             = LicenseActivation.licenseId a) ->
  activations_of i (mkStore ls' (List.map g acts))
  = activations_of i (mkStore ls acts).
Proof.
  intros Hfix Hid. rewrite activations_of_mapped by exact Hid.
  apply map_id_on. intros a Ha. apply activations_of_In in Ha as [Ha Hi].
  now apply Hfix.
Qed.

(** X25. A validate call touches one license only: on a store that
    satisfies the schema's constraints, a call that presents the key and
    plugin id of a stored license leaves every other license, and the
    activation rows of every other license, exactly as they were, whatever
    its outcome. *)
Theorem validate_touches_one_license (s : Store) (l l0 : License.t)
    (m : option string) (env : ValidateEnv) :
  wf_store s -> activation_ids_unique s ->
  In l (licenses s) -> In l0 (licenses s) ->
  License.id l0 <> License.id l ->
  In l0 (licenses (fst (validate (body_for l m) env s)))
  /\ activations_of (License.id l0) (fst (validate (body_for l m) env s))
     = activations_of (License.id l0) s.
Proof.
  intros Hwf Hnd Hl Hl0 Hne.
  destruct (stored_license_lookup s l Hwf Hl) as (Hk & Hp & Hfind).
  unfold body_for.
  destruct (Z.lt_ge_cases (License.expiresAt l) (val_now env))
    as [Hexp|Hlive].
  { rewrite (validate_expired _ _ env s l Hk Hp Hfind m Hexp). simpl fst.
    split; [|reflexivity]. apply License_update_stored; auto. }
  destruct (LicenseStatus_eqb (License.status l) active) eqn:Hst.
  2: { rewrite (validate_not_active _ _ env s l Hk Hp Hfind m Hlive);
         [auto|]. intros E. rewrite E in Hst. discriminate. }
  assert (Hactive : License.status l = active)
    by (destruct (License.status l); easy).
  destruct (truthy m) eqn:Hm.
  2: { rewrite (validate_status_only _ _ env s l Hk Hp Hfind Hlive Hactive
                  m Hm). auto. }
  destruct m as [mid|]; [|discriminate]. apply truthy_Some in Hm.
  destruct (LicenseActivation_findOne (License.id l) mid s) as [a|] eqn:Ha.
  { rewrite (validate_seen _ _ env s l Hk Hp Hfind Hlive Hactive mid Hm a
               Ha). simpl fst. split; [exact Hl0|].
    unfold LicenseActivation_update.
    replace (activations_of (License.id l0) s)
      with (activations_of (License.id l0)
              (mkStore (licenses s) (activations s))) by now destruct s.
    apply activations_of_untouched; [|intros; apply update_licenseId].
    intros x Hx Hxi.
    destruct (String.eqb_spec (LicenseActivation.id x)
                (LicenseActivation.id a)) as [E|_]; [|reflexivity].
    unfold LicenseActivation_findOne in Ha.
    apply find_some in Ha as [Hain Hb].
    assert (x = a) by exact (NoDup_map_inj_in _ _ _ _ Hnd Hx Hain E).
    subst x. apply andb_prop in Hb as [Hb _].
    apply andb_prop in Hb as [Hb _]. apply String.eqb_eq in Hb.
    congruence. }
  destruct (Z.le_gt_cases (License.maxActivations l)
              (activeActivations (License.id l) s)) as [Hcap|Hroom].
  { rewrite (validate_cap_reached _ _ env s l Hk Hp Hfind Hlive Hactive mid
               Hm Ha Hcap). auto. }
  destruct (LicenseActivation_create
              (LicenseActivation.mk (val_uuid env) (License.id l) mid
                 (val_ip env) (val_userAgent env) (val_now env)
                 (val_now env) act_active) s) as [s1|] eqn:Hc.
  2: { rewrite (validate_insert_rejected _ _ env s l Hk Hp Hfind Hlive
                  Hactive mid Hm Ha Hroom Hc). auto. }
  assert (Hrows : activations_of (License.id l0) s1
                  = activations_of (License.id l0) s).
  { rewrite (LicenseActivation_create_Some _ _ _ Hc).
    rewrite activations_of_added. unfold LicenseActivation_stored.
    cbn [LicenseActivation.licenseId].
    replace (License.id l =? License.id l0)%string with false
      by (symmetry; apply String.eqb_neq; congruence).
    rewrite List.app_nil_r. now destruct s. }
  destruct (fits_INTEGER (License.activationCount l + 1)) eqn:Hfits.
  - rewrite (validate_activates _ _ env s l Hk Hp Hfind Hlive Hactive mid Hm
               Ha Hroom s1 Hc Hfits). simpl fst.
    split; [|exact Hrows].
    apply LicenseActivation_create_Some in Hc. subst s1.
    apply License_update_stored; auto.
    apply added_activation_wf; [|exact Hwf]. simpl. now apply in_map.
  - rewrite (validate_update_rejected _ _ env s l Hk Hp Hfind Hlive Hactive
               mid Hm Ha Hroom s1 Hc Hfits). simpl fst.
    split; [|exact Hrows].
    apply LicenseActivation_create_Some in Hc. subst s1. exact Hl0.
Qed.

Example neighbour_store :
  Neighbour.store
  = mkStore [Scenario.one_year_activated; Neighbour.perpetual]
            [Scenario.activation_A].
Proof. reflexivity. Qed.

Lemma validate_touches_one_license_witness :
  In Neighbour.perpetual
     (licenses (fst (validate (body_for Scenario.one_year_activated
                                 (Some "B"))
                       (Scenario.val_env Scenario.a2 Scenario.past_due)
                       Neighbour.store)))
  /\ activations_of Neighbour.license_id
       (fst (validate (body_for Scenario.one_year_activated (Some "B"))
               (Scenario.val_env Scenario.a2 Scenario.past_due) Neighbour.store))
     = activations_of Neighbour.license_id Neighbour.store.
Proof.
  apply (validate_touches_one_license Neighbour.store
           Scenario.one_year_activated Neighbour.perpetual (Some "B")
           (Scenario.val_env Scenario.a2 Scenario.past_due)).
  - apply serve_wf, empty_store_wf.
  - rewrite neighbour_store. repeat constructor. simpl. tauto.
  - rewrite neighbour_store. simpl; auto.
  - rewrite neighbour_store. simpl; auto.
  - discriminate.
Defined.

(** X26. A revocation touches one license only: revoking a license id
    leaves every stored license whose id the request does not denote (as a
    UUID), and the activation rows of every such license id, exactly as
    they were; so a request whose license id is not a UUID changes
    nothing. *)
Theorem revoke_touches_one_license (licenseId : string) (reason : jsval)
    (now : Z) (s : Store) :
  (forall l0, In l0 (licenses s) ->
     uuid_in licenseId <> Some (License.id l0) ->
     In l0 (licenses (fst (revoke licenseId reason now s))))
  /\ (forall i, uuid_in licenseId <> Some i ->
        activations_of i (fst (revoke licenseId reason now s))
        = activations_of i s)
  /\ (uuid_in licenseId = None -> fst (revoke licenseId reason now s) = s).
Proof.
  unfold revoke.
  destruct (uuid_in licenseId) as [pk|]; [|auto].
  destruct (License_findByPk pk s) as [l|] eqn:Hfind;
    [|split; [|split]; auto; discriminate].
  apply License_findByPk_Some in Hfind as [_ Hid]. simpl.
  split; [|split; [|discriminate]].
  - intros l0 Hl0 Hne. apply in_map_iff. exists l0.
    replace (License.id l0 =? License.id l)%string with false; [auto|].
    symmetry. apply String.eqb_neq. congruence.
  - intros i Hi.
    replace (activations_of i s)
      with (activations_of i (mkStore (licenses s) (activations s)))
      by now destruct s.
    apply activations_of_untouched; [|intros; apply revokeAll_licenseId].
    intros a _ Ha.
    replace (LicenseActivation.licenseId a =? pk)%string with false;
      [reflexivity|].
    symmetry. apply String.eqb_neq. congruence.
Qed.

(** The license is the one that the text denotes, however it is spelt. *)
Example revoke_other_spelling :
  "{3F2A6C1E8B47-4D09-9A53-6E1D2C7B4F80}" <> Scenario.license_id
  /\ option_map License.status
       (License_findByPk Scenario.license_id
          (fst (revoke "{3F2A6C1E8B47-4D09-9A53-6E1D2C7B4F80}" JUndefined
                  5000 Scenario.activated)))
     = Some revoked.
Proof. split; [discriminate | reflexivity]. Qed.

Example revoke_neighbour :
  fst (revoke Neighbour.license_id (JString "fraud") 5000 Neighbour.store)
  = mkStore
      [Scenario.one_year_activated;
       License.set_status_metadata revoked
         (revocation_metadata ∅ (JString "fraud") 5000) Neighbour.perpetual]
      [Scenario.activation_A].
Proof. vm_compute. reflexivity. Qed.
